(** * BOLTS consistency checker (backends/checker.py)

    A shallow embedding of the check engine of BOLTS: the [ErrorTable] base
    class with its text renderer, the seven concrete checks and their
    [populate] methods, together with the properties of the checks that the
    specification states.

    Python objects are embedded as follows.
    - A [dict] is a [gmap]; iterating over it visits [map_to_list] order
      (Python 2 leaves the order of a dict unspecified).
    - A method that mutates [self.rows] and may raise is a computation in the
      monad [Py St], a state monad over the mutated object whose outcome is
      either a returned value or a raised exception.  The state reached at
      the moment of the raise is kept, as the mutation of [self.rows] is.
    - [os.path] and [os.listdir] act on an explicit file system. *)

From stdpp Require Import base option list strings gmap.
From Stdlib Require Import Ascii Lia.

Set Default Proof Using "Type".

(** ** Python values, exceptions and the effect monad *)

(** The objects that end up in a cell of a violation row.  The checker only
    ever applies [str] to a cell, so an object of any other type is
    represented by what [str] returns for it. *)
Inductive pyval :=
  | PStr (s : string)
  | PBool (b : bool)
  | PNone
  | PObj (shown : string).

#[global] Instance pyval_eq_dec : EqDecision pyval.
Proof. solve_decision. Defined.

Definition str (v : pyval) : string :=
  match v with
  | PStr s => s
  | PBool true => "True"
  | PBool false => "False"
  | PNone => "None"
  | PObj shown => shown
  end.

Inductive pyerr :=
  | KeyError (key : string)
  | IndexError
  | ValueError
  | UnboundLocalError (name : string)
  | OSError (path : string).

Inductive outcome (St A : Type) :=
  | Returns (a : A) (s : St)
  | Raises (e : pyerr) (s : St).
Arguments Returns {St A} a s.
Arguments Raises {St A} e s.

Definition Py (St A : Type) : Type := St → outcome St A.

#[global] Instance Py_ret {St} : MRet (Py St) := λ A a s, Returns a s.
#[global] Instance Py_bind {St} : MBind (Py St) := λ A B f m s,
  match m s with
  | Returns a s' => f a s'
  | Raises e s' => Raises e s'
  end.

Definition raise {St A} (e : pyerr) : Py St A := λ s, Raises e s.
Definition modify {St} (f : St → St) : Py St unit := λ s, Returns tt (f s).

(** [for x in xs: body] *)
Fixpoint for_each {St X} (xs : list X) (body : X → Py St unit) : Py St unit :=
  match xs with
  | [] => mret tt
  | x :: xs' => body x ;; for_each xs' body
  end.

(** [for x in xs: body] where the body updates a local variable [acc] *)
Fixpoint for_fold {St X A} (xs : list X) (acc : A) (body : X → A → Py St A) : Py St A :=
  match xs with
  | [] => mret acc
  | x :: xs' => acc' ← body x acc; for_fold xs' acc' body
  end.

(** A generator expression [(f x for x in xs)], consumed in order *)
Fixpoint for_map {St X B} (xs : list X) (f : X → Py St B) : Py St (list B) :=
  match xs with
  | [] => mret []
  | x :: xs' => y ← f x; ys ← for_map xs' f; mret (y :: ys)
  end.

(** [l[i]] and [l[i] = x] on a list, for an index that is not negative *)
Definition list_get {St A} (l : list A) (i : nat) : Py St A :=
  match l !! i with
  | Some x => mret x
  | None => raise IndexError
  end.

Definition list_set {St A} (l : list A) (i : nat) (x : A) : Py St (list A) :=
  if decide (i < length l) then mret (<[i:=x]> l) else raise IndexError.

(** [l.remove(x)]: drops the first occurrence, [ValueError] when there is none *)
Fixpoint remove_first (x : string) (l : list string) : option (list string) :=
  match l with
  | [] => None
  | y :: l' => if decide (y = x) then Some l' else cons y <$> remove_first x l'
  end.

Definition list_remove {St} (l : list string) (x : string) : Py St (list string) :=
  match remove_first x l with
  | Some l' => mret l'
  | None => raise ValueError
  end.

(** Reading a local variable that a loop may have left unbound *)
Definition read_local {St A} (name : string) (var : option A) : Py St A :=
  match var with
  | Some v => mret v
  | None => raise (UnboundLocalError name)
  end.

(** [d[k]] on a dict *)
Definition getitem {St V} (d : gmap string V) (k : string) : Py St V :=
  match d !! k with
  | Some v => mret v
  | None => raise (KeyError k)
  end.

(** [k in d] on a dict *)
Definition contains {V} (d : gmap string V) (k : string) : bool :=
  bool_decide (is_Some (d !! k)).

(** [for k in d] and [d.iteritems()] *)
Definition keys {V} (d : gmap string V) : list string := (map_to_list d).*1.
Definition iteritems {V} (d : gmap string V) : list (string * V) := map_to_list d.

(** ** Strings and [os.path] (posixpath) *)

Definition nl : string := String "010"%char "".

(** [s * n] *)
Fixpoint str_mul (s : string) (n : nat) : string :=
  match n with
  | 0 => ""
  | S n' => s +:+ str_mul s n'
  end.

(** ["%-*s" % (w, v)] for a string [v]: left-justified in a field of width [w] *)
Definition fmt_left (w : nat) (v : string) : string :=
  v +:+ str_mul " " (w - String.length v).

(** [p[n:]] and [p[:n]] *)
Fixpoint str_drop (n : nat) (p : string) : string :=
  match n, p with
  | S n', String _ p' => str_drop n' p'
  | _, _ => p
  end.

Fixpoint str_take (n : nat) (p : string) : string :=
  match n, p with
  | S n', String c p' => String c (str_take n' p')
  | _, _ => ""
  end.

(** [p.rfind(c)]: the greatest index at which [c] occurs, or -1 *)
Fixpoint rfind (c : ascii) (p : string) : Z :=
  match p with
  | EmptyString => (-1)%Z
  | String a p' =>
      let r := rfind c p' in
      if (0 <=? r)%Z then (r + 1)%Z
      else if decide (a = c) then 0%Z else (-1)%Z
  end.

Definition startswith_slash (b : string) : bool :=
  match b with
  | String c _ => bool_decide (c = "/"%char)
  | EmptyString => false
  end.

Fixpoint endswith_slash (p : string) : bool :=
  match p with
  | EmptyString => false
  | String c EmptyString => bool_decide (c = "/"%char)
  | String _ p' => endswith_slash p'
  end.

(** [os.path.join(a, *p)] *)
Definition join (a : string) (p : list string) : string :=
  foldl (λ path b,
    if startswith_slash b then b
    else if bool_decide (path = "") || endswith_slash path then path +:+ b
    else path +:+ "/" +:+ b) a p.

(** [os.path.basename(p)] *)
Definition basename (p : string) : string :=
  let i := (rfind "/"%char p + 1)%Z in
  str_drop (Z.to_nat i) p.

(** [os.path.splitext(p)]: the extension starts at the last dot of the last
    path component, dots that lead the component apart. *)
Definition splitext (p : string) : string * string :=
  let sepIndex := rfind "/"%char p in
  let dotIndex := rfind "."%char p in
  if bool_decide (sepIndex < dotIndex)%Z
     && existsb (λ i, negb (bool_decide (String.get i p = Some "."%char)))
                (seq (Z.to_nat (sepIndex + 1)) (Z.to_nat (dotIndex - (sepIndex + 1))))
  then (str_take (Z.to_nat dotIndex) p, str_drop (Z.to_nat dotIndex) p)
  else (p, "").

(** What a path names on disk: a directory with its entries, or something
    that cannot be listed. *)
Inductive fsnode :=
  | Dir (entries : list string)
  | NotDir.

(** [os.path.exists(path)] and [os.listdir(path)] *)
Definition exists_ (fs : gmap string fsnode) (path : string) : bool :=
  contains fs path.

Definition listdir {St} (fs : gmap string fsnode) (path : string) : Py St (list string) :=
  match fs !! path with
  | Some (Dir entries) => mret entries
  | _ => raise (OSError path)
  end.

(** ** The catalog and the backend databases (external collaborators) *)

Record Parameters := { common : list string }.

Record BOLTSClass := {
  cl_id : string;
  standard : pyval;
  parameters : Parameters
}.

Record Collection := {
  coll_id : string;
  coll_license_name : string;
  coll_license_url : string;
  authors : list string;
  classes_by_ids : list BOLTSClass
}.

Record Repository := {
  repo_path : string;
  collections : list Collection
}.

Record BaseEntry := {
  filename : string;
  license_name : string;
  license_url : string;
  classids : list string;
  get_png : option string;
  get_svg : option string
}.

Record Database := { getbase : gmap string BaseEntry }.

(** The external collaborators a check consults besides its arguments: the
    license validator [license.check_license] and the file system. *)
Record Env := {
  check_license : string → string → bool;
  fs : gmap string fsnode
}.

(** ** ErrorTable *)

Abbreviation row := (list pyval).

Inductive table_class :=
  | ErrorTable
  | MissingBaseTable
  | UnknownClassTable
  | MissingCommonParametersTable
  | MissingDrawingTable
  | MissingSVGSourceTable
  | UnsupportedLicenseTable
  | UnknownFileTable.

Record table := {
  klass : table_class;
  title : string;
  description : string;
  rows : list row;
  headers : list string
}.

Definition ErrorTable_init (k : table_class) (title description : string)
    (headers : list string) : table :=
  {| klass := k; title := title; description := description;
     rows := []; headers := headers |}.

(** [ErrorTable.populate]: [pass] *)
Definition ErrorTable_populate (repo : Repository) (dbs : gmap string Database)
    : Py (list row) unit :=
  mret tt.

Definition get_headers (self : table) : list string := headers self.
Definition get_title (self : table) : string := title self.
Definition get_description (self : table) : string := description self.
Definition get_table (self : table) : list row := rows self.

(** [self.rows.append(row)] *)
Definition rows_append (r : row) : Py (list row) unit :=
  modify (λ rows, rows ++ [r]).

(** [ErrorTable.print_table].  It reads [self] and mutates nothing; [res]
    and [width] are its local lists. *)
Definition print_table {St} (self : table) : Py St string :=
  if bool_decide (length (rows self) = 0) then mret "" else
  let res := [title self] in
  let res := res ++ [str_mul "-" (String.length (title self)) +:+ nl] in
  let res := res ++ [description self +:+ nl] in
  width ← for_fold (headers self) [] (λ field width,
    mret (width ++ [String.length field]));
  width ← for_fold (rows self) width (λ row width,
    for_fold (seq 0 (length row)) width (λ i width,
      cell ← list_get row i;
      w ← list_get width i;
      list_set width i (String.length (str cell) `max` w)));
  width ← for_fold (seq 0 (length width)) width (λ i width,
    w ← list_get width i;
    list_set width i (w + 2));
  cells ← for_map (seq 0 (length (headers self))) (λ i,
    w ← list_get width i;
    h ← list_get (headers self) i;
    mret (fmt_left w h));
  let res := res ++ [String.concat "" cells] in
  let res := res ++ [String.concat "" ((λ w, str_mul "-" w) <$> width)] in
  res ← for_fold (rows self) res (λ row res,
    mret (res ++ [String.concat "" ((λ wv, fmt_left wv.1 (str wv.2)) <$> zip width row)]));
  let res := res ++ [nl] in
  mret (String.concat nl res).

(** ** The seven checks *)

Definition MissingBaseTable_init : table :=
  ErrorTable_init MissingBaseTable
    "Missing base geometries"
    "Some classes can not be used in one or more CAD packages, because no geometry is available."
    ["Class id"; "Collection"; "Standards"; "FreeCAD"; "OpenSCAD"].

(** [MissingBaseTable.populate].  [row[-1]] and [row[-2]] are the two
    booleans appended last: membership in the OpenSCAD and in the FreeCAD
    base map. *)
Definition MissingBaseTable_populate (repo : Repository) (dbs : gmap string Database)
    : Py (list row) unit :=
  for_each (collections repo) (λ coll,
    for_each (classes_by_ids coll) (λ cl,
      let row := [PStr (cl_id cl)] in
      let row := row ++ [PStr (coll_id coll)] in
      let row := row ++ [standard cl] in
      freecad ← getitem dbs "freecad";
      let in_freecad := contains (getbase freecad) (cl_id cl) in
      let row := row ++ [PBool in_freecad] in
      openscad ← getitem dbs "openscad";
      let in_openscad := contains (getbase openscad) (cl_id cl) in
      let row := row ++ [PBool in_openscad] in
      if negb (in_openscad && in_freecad) then rows_append row else mret tt)).

(** The [populate] that [UnknownClassTable.__init__] defines as a local
    function of its own body. *)
Definition UnknownClassTable_init_populate (repo : Repository)
    (dbs : gmap string Database) : Py (list row) unit :=
  ids ← for_fold (collections repo) [] (λ coll ids,
    for_fold (classes_by_ids coll) ids (λ cl ids, mret (ids ++ [cl_id cl])));
  for_each (keys dbs) (λ db,
    database ← getitem dbs db;
    for_each (map_to_list (getbase database)).*2 (λ base,
      for_each (classids base) (λ cl_id,
        if negb (bool_decide (cl_id ∈ ids))
        then rows_append ([PStr cl_id] ++ [PStr db])
        else mret tt))).

(** [UnknownClassTable.__init__]: the local function is bound to a local
    name and dropped when [__init__] returns. *)
Definition UnknownClassTable_init : table :=
  let self := ErrorTable_init UnknownClassTable
    "Unknown classes"
    "Some classes are mentioned in base files, but never defined in blt files."
    ["Class id"; "Database"] in
  let populate := UnknownClassTable_init_populate in
  self.

Definition MissingCommonParametersTable_init : table :=
  ErrorTable_init MissingCommonParametersTable
    "Missing common parameters"
    "Some classes have no common parameters defined."
    ["Class ID"; "Collection"; "Standards"].

Definition MissingCommonParametersTable_populate (repo : Repository)
    (dbs : gmap string Database) : Py (list row) unit :=
  for_each (collections repo) (λ coll,
    for_each (classes_by_ids coll) (λ cl,
      if bool_decide (length (common (parameters cl)) = 0) then
        let row := [PStr (cl_id cl)] in
        let row := row ++ [PStr (coll_id coll)] in
        let row := row ++ [standard cl] in
        rows_append row
      else mret tt)).

Definition MissingDrawingTable_init : table :=
  ErrorTable_init MissingDrawingTable
    "Missing drawings"
    "Some classes do not have associated drawings."
    ["Class id"; "Collection"; "Standards"].

Definition MissingDrawingTable_populate (repo : Repository)
    (dbs : gmap string Database) : Py (list row) unit :=
  for_each (collections repo) (λ coll,
    for_each (classes_by_ids coll) (λ cl,
      drawings ← getitem dbs "drawings";
      if negb (contains (getbase drawings) (cl_id cl)) then
        let row := [PStr (coll_id coll)] in
        let row := row ++ [standard cl] in
        rows_append row
      else mret tt)).

Definition MissingSVGSourceTable_init : table :=
  ErrorTable_init MissingSVGSourceTable
    "Missing svg drawings"
    "Some drawings have no svg version."
    ["Filename"; "Class ID"].

Definition MissingSVGSourceTable_populate (repo : Repository)
    (dbs : gmap string Database) : Py (list row) unit :=
  drawings ← getitem dbs "drawings";
  for_each (iteritems (getbase drawings)) (λ '(id, draw),
    if bool_decide (get_svg draw = None) then
      let row := [PStr (filename draw)] in
      let row := row ++ [PStr id] in
      rows_append row
    else mret tt).

Definition UnsupportedLicenseTable_init : table :=
  ErrorTable_init UnsupportedLicenseTable
    "Incompatible Licenses"
    "Some collections or base geometries have unknown licenses."
    ["Type"; "Id/Filename"; "License name"; "License url"; "Authors"].

(** [UnsupportedLicenseTable.populate].  The loop variable [coll] of the
    first loop is a local of the method: it is unbound until the loop binds
    it, stays bound to the last collection once the loop is over, and is
    read again in the second loop. *)
Definition UnsupportedLicenseTable_populate (env : Env) (repo : Repository)
    (dbs : gmap string Database) : Py (list row) unit :=
  coll_var ← for_fold (collections repo) None (λ coll _,
    (if negb (check_license env (coll_license_name coll) (coll_license_url coll)) then
       let row := [PStr "Collection"] in
       let row := row ++ [PStr (coll_id coll)] in
       let row := row ++ [PStr (coll_license_name coll)] in
       let row := row ++ [PStr (coll_license_url coll)] in
       let row := row ++ [PStr (String.concat "," (authors coll))] in
       rows_append row
     else mret tt);;
    mret (Some coll));
  for_each (keys dbs) (λ db,
    database ← getitem dbs db;
    for_each (iteritems (getbase database)) (λ '(id, base),
      if negb (check_license env (license_name base) (license_url base)) then
        let row := [PStr db] in
        let row := row ++ [PStr id] in
        let row := row ++ [PStr (license_name base)] in
        let row := row ++ [PStr (license_url base)] in
        coll ← read_local "coll" coll_var;
        let row := row ++ [PStr (String.concat "," (authors coll))] in
        rows_append row
      else mret tt)).

Definition UnknownFileTable_init : table :=
  ErrorTable_init UnknownFileTable
    "Stray files"
    "Some files are present in the repository, but not mentioned anywhere."
    ["Filename"; "Path"].

(** The two places of [UnknownFileTable.populate] headed [#check what is left] *)
Definition check_what_is_left (files : list string) (path : string)
    : Py (list row) unit :=
  for_each files (λ fname,
    if bool_decide ((splitext fname).2 = ".base") then mret tt
    else
      let row := [PStr fname] in
      let row := row ++ [PStr path] in
      rows_append row).

(** The body of the loop over the collections, for a backend [db] other
    than the drawings. *)
Definition UnknownFileTable_backend_collection (env : Env) (repo : Repository)
    (dbs : gmap string Database) (db : string) (coll : Collection)
    : Py (list row) unit :=
  let path := join (repo_path repo) [db; coll_id coll] in
  if negb (exists_ (fs env) path) then mret tt else
  files ← listdir (fs env) path;
  files ← for_fold (classes_by_ids coll) files (λ cl files,
    database ← getitem dbs db;
    if negb (contains (getbase database) (cl_id cl)) then mret files else
    database ← getitem dbs db;
    base ← getitem (getbase database) (cl_id cl);
    if bool_decide (filename base ∈ files)
    then list_remove files (filename base)
    else mret files);
  check_what_is_left files path.

(** The body of the loop over the collections in the pass for the drawings *)
Definition UnknownFileTable_drawings_collection (env : Env) (repo : Repository)
    (dbs : gmap string Database) (coll : Collection) : Py (list row) unit :=
  let path := join (repo_path repo) ["drawings"; coll_id coll] in
  if negb (exists_ (fs env) path) then mret tt else
  files ← listdir (fs env) path;
  files ← for_fold (classes_by_ids coll) files (λ cl files,
    drawings ← getitem dbs "drawings";
    if negb (contains (getbase drawings) (cl_id cl)) then mret files else
    drawings ← getitem dbs "drawings";
    drawing ← getitem (getbase drawings) (cl_id cl);
    files ← match get_png drawing with
            | Some png =>
                if bool_decide (basename png ∈ files)
                then list_remove files (basename png)
                else mret files
            | None => mret files
            end;
    match get_svg drawing with
    | Some svg =>
        if bool_decide (basename svg ∈ files)
        then list_remove files (basename svg)
        else mret files
    | None => mret files
    end);
  check_what_is_left files path.

Definition UnknownFileTable_populate (env : Env) (repo : Repository)
    (dbs : gmap string Database) : Py (list row) unit :=
  for_each (keys dbs) (λ db,
    if bool_decide (db = "drawings") then mret tt else
    for_each (collections repo) (UnknownFileTable_backend_collection env repo dbs db));;
  if contains dbs "drawings" then
    for_each (collections repo) (UnknownFileTable_drawings_collection env repo dbs)
  else mret tt.

(** ** Method resolution and the check engine *)

(** The [populate] a class defines in its own body, if it defines one *)
Definition own_populate (env : Env) (k : table_class)
    : option (Repository → gmap string Database → Py (list row) unit) :=
  match k with
  | ErrorTable => Some ErrorTable_populate
  | MissingBaseTable => Some MissingBaseTable_populate
  | UnknownClassTable => None
  | MissingCommonParametersTable => Some MissingCommonParametersTable_populate
  | MissingDrawingTable => Some MissingDrawingTable_populate
  | MissingSVGSourceTable => Some MissingSVGSourceTable_populate
  | UnsupportedLicenseTable => Some (UnsupportedLicenseTable_populate env)
  | UnknownFileTable => Some (UnknownFileTable_populate env)
  end.

(** Runs a method body that works on [self.rows] against the table [self] *)
Definition on_rows {A} (m : Py (list row) A) : Py table A := λ self,
  let with_rows r := {| klass := klass self; title := title self;
                        description := description self; rows := r;
                        headers := headers self |} in
  match m (rows self) with
  | Returns a r => Returns a (with_rows r)
  | Raises e r => Raises e (with_rows r)
  end.

(** [check.populate(repo, databases)]: the method of the class of [check],
    or else the one inherited from [ErrorTable] *)
Definition call_populate (env : Env) (repo : Repository)
    (dbs : gmap string Database) : Py table unit := λ self,
  on_rows (default ErrorTable_populate (own_populate env (klass self)) repo dbs) self.

(** [CheckerExporter.__init__]: the registry of the seven checks, each
    populated in the order in which the dict yields them.  The call to
    [BackendExporter.__init__], which keeps the repository, is left out. *)
Definition CheckerExporter_checks : gmap string table :=
  let checks : gmap string table := ∅ in
  let checks := <["missingbase" := MissingBaseTable_init]> checks in
  let checks := <["unknownclass" := UnknownClassTable_init]> checks in
  let checks := <["missingcommonparameters" := MissingCommonParametersTable_init]> checks in
  let checks := <["missingdrawing" := MissingDrawingTable_init]> checks in
  let checks := <["missingsvgsource" := MissingSVGSourceTable_init]> checks in
  let checks := <["unsupportedlicense" := UnsupportedLicenseTable_init]> checks in
  let checks := <["unknownfile" := UnknownFileTable_init]> checks in
  checks.

Definition CheckerExporter_init (env : Env) (repo : Repository)
    (dbs : gmap string Database) : outcome (gmap string table) unit :=
  for_each (map_to_list CheckerExporter_checks) (λ '(name, check) checks,
    match call_populate env repo dbs check with
    | Returns _ check' => Returns tt (<[name := check']> checks)
    | Raises e check' => Raises e (<[name := check']> checks)
    end) CheckerExporter_checks.

(** ** Sample inputs *)

Definition ex_base (f : string) (lic : string) : BaseEntry :=
  {| filename := f; license_name := lic;
     license_url := "http://www.gnu.org/licenses/lgpl-2.1";
     classids := []; get_png := None; get_svg := None |}.

Definition ex_drawing (f : string) (png svg : option string) : BaseEntry :=
  {| filename := f; license_name := "LGPL 2.1+";
     license_url := "http://www.gnu.org/licenses/lgpl-2.1";
     classids := []; get_png := png; get_svg := svg |}.

Definition ex_class (i : string) (ps : list string) : BOLTSClass :=
  {| cl_id := i; standard := PStr "DIN933"; parameters := {| common := ps |} |}.

Definition ex_coll (i : string) (who : list string) (cls : list BOLTSClass)
    : Collection :=
  {| coll_id := i; coll_license_name := "LGPL 2.1+";
     coll_license_url := "http://www.gnu.org/licenses/lgpl-2.1";
     authors := who; classes_by_ids := cls |}.

(** One collection [hex] with the classes [A] (no common parameters) and
    [B]; only [A] has geometry, and only for FreeCAD. *)
Definition ex_hex : Collection :=
  ex_coll "hex" ["J R"] [ex_class "A" []; ex_class "B" ["key"]].

Definition ex_repo : Repository :=
  {| repo_path := "/bolts"; collections := [ex_hex] |}.

Definition ex_freecad : Database :=
  {| getbase := {[ "A" := ex_base "hex.py" "Proprietary" ]} |}.
Definition ex_openscad : Database := {| getbase := ∅ |}.
Definition ex_drawings : Database :=
  {| getbase := {[ "B" := ex_drawing "hex" (Some "/bolts/drawings/hex/hex.png") None ]} |}.

Definition ex_dbs : gmap string Database :=
  {[ "freecad" := ex_freecad; "openscad" := ex_openscad; "drawings" := ex_drawings ]}.

Definition ex_empty_repo : Repository :=
  {| repo_path := "/bolts"; collections := [] |}.

Definition ex_env : Env :=
  {| check_license := λ name url, bool_decide (name = "LGPL 2.1+");
     fs := {[ "/bolts/freecad/hex" := Dir ["hex.py"; "hex.base"; "stray.txt"];
              "/bolts/drawings/hex" := Dir ["hex.png"; "hex.base"; "old.svg"] ]} |}.


(** The same validator over a repository path with no directory at all *)
Definition ex_bare_env : Env :=
  {| check_license := λ name url, bool_decide (name = "LGPL 2.1+"); fs := ∅ |}.

(** The drawings check once it has reported class [A] of [ex_repo] *)
Definition ex_table : table :=
  {| klass := MissingDrawingTable;
     title := "Missing drawings";
     description := "Some classes do not have associated drawings.";
     rows := [[PStr "hex"; PStr "DIN933"]];
     headers := ["Class id"; "Collection"; "Standards"] |}.

(** A base of the FreeCAD backend that names a class the catalog lacks *)
Definition ex_dbs_unknown : gmap string Database :=
  {[ "freecad" := {| getbase := {[ "A" :=
       {| filename := "hex.py"; license_name := "LGPL 2.1+"; license_url := "";
          classids := ["A"; "Z"]; get_png := None; get_svg := None |} ]} |} ]}.

(** The geometry backends alone: no drawings database *)
Definition ex_dbs_geometry : gmap string Database :=
  {[ "freecad" := ex_freecad; "openscad" := ex_openscad ]}.

(** The OpenSCAD backend alone *)
Definition ex_dbs_openscad : gmap string Database :=
  {[ "openscad" := ex_openscad ]}.

(** A repository in which the directory of the collection for FreeCAD is a
    plain file *)
Definition ex_env_plain_file : Env :=
  {| check_license := λ name url, bool_decide (name = "LGPL 2.1+");
     fs := {[ "/bolts/freecad/hex" := NotDir ]} |}.
(** Every (collection, class) pair of the catalog, by collection and then by
    class within the collection: the order in which the nested loops of the
    checks visit them. *)
Definition class_occurrences (repo : Repository) : list (Collection * BOLTSClass) :=
  coll ← collections repo; cl ← classes_by_ids coll; [(coll, cl)].

(** The state a computation leaves behind, however it ends *)
Definition final_state {St A} (o : outcome St A) : St :=
  match o with
  | Returns _ s => s
  | Raises _ s => s
  end.

(** ** What each check reports *)

Definition class_ids (repo : Repository) : list string :=
  (λ occ, cl_id occ.2) <$> class_occurrences repo.

(** The rows of a table that carry the class id [i] in their first cell *)
Definition rows_for (i : string) (rs : list row) : list row :=
  List.filter (λ r, bool_decide (r !! 0 = Some (PStr i))) rs.

Definition MissingBase_row (freecad openscad : Database)
    (occ : Collection * BOLTSClass) : row :=
  [PStr (cl_id occ.2); PStr (coll_id occ.1); standard occ.2;
   PBool (contains (getbase freecad) (cl_id occ.2));
   PBool (contains (getbase openscad) (cl_id occ.2))].

Definition absent_from_either (freecad openscad : Database)
    (occ : Collection * BOLTSClass) : bool :=
  bool_decide (getbase freecad !! cl_id occ.2 = None
               ∨ getbase openscad !! cl_id occ.2 = None).

Definition MissingCommonParameters_row (occ : Collection * BOLTSClass) : row :=
  [PStr (cl_id occ.2); PStr (coll_id occ.1); standard occ.2].

Definition no_common_parameters (occ : Collection * BOLTSClass) : bool :=
  bool_decide (common (parameters occ.2) = []).

Definition MissingDrawing_row (occ : Collection * BOLTSClass) : row :=
  [PStr (coll_id occ.1); standard occ.2].

Definition lacks_drawing (drawings : Database) (occ : Collection * BOLTSClass) : bool :=
  bool_decide (getbase drawings !! cl_id occ.2 = None).

Definition Collection_license_row (coll : Collection) : row :=
  [PStr "Collection"; PStr (coll_id coll); PStr (coll_license_name coll);
   PStr (coll_license_url coll); PStr (String.concat "," (authors coll))].

Definition unsupported_collection (env : Env) (coll : Collection) : bool :=
  negb (check_license env (coll_license_name coll) (coll_license_url coll)).

(** The row for the base [entry] of the backend [db], its authors being
    those of the collection [who] *)
Definition Base_license_row (who : Collection) (db : string)
    (entry : string * BaseEntry) : row :=
  [PStr db; PStr entry.1; PStr (license_name entry.2); PStr (license_url entry.2);
   PStr (String.concat "," (authors who))].

Definition unsupported_base (env : Env) (entry : string * BaseEntry) : bool :=
  negb (check_license env (license_name entry.2) (license_url entry.2)).

Definition base_license_rows (env : Env) (dbs : gmap string Database)
    (who : Collection) : list row :=
  kv ← map_to_list dbs;
  Base_license_row who kv.1 <$>
    List.filter (unsupported_base env) (map_to_list (getbase kv.2)).

(** The names that the classes of a collection account for in the directory
    of a backend: the filename of the class's BaseEntry there, and for the
    drawings the basenames of its PNG and SVG artifacts. *)
Definition registered_names (dbs : gmap string Database) (db : string)
    (cl : BOLTSClass) : list string :=
  match dbs !! db with
  | Some database =>
      match getbase database !! cl_id cl with
      | Some base => [filename base]
      | None => []
      end
  | None => []
  end.

Definition drawing_names (dbs : gmap string Database) (cl : BOLTSClass) : list string :=
  match dbs !! "drawings" with
  | Some drawings =>
      match getbase drawings !! cl_id cl with
      | Some drawing =>
          option_list (basename <$> get_png drawing)
          ++ option_list (basename <$> get_svg drawing)
      | None => []
      end
  | None => []
  end.

Definition stray_row (path : string) (fname : string) : row :=
  [PStr fname; PStr path].

Definition not_sidecar (fname : string) : bool :=
  negb (bool_decide ((splitext fname).2 = ".base")).

(** A row that the pass over the backend [db] may append for the
    collection [coll]: a file listed in the directory of the two that is no
    sidecar file and not the BaseEntry filename of a class of [coll]. *)
Definition backend_stray (env : Env) (repo : Repository) (dbs : gmap string Database)
    (db : string) (coll : Collection) (r : row) : Prop :=
  ∃ fname entries,
    r = [PStr fname; PStr (join (repo_path repo) [db; coll_id coll])]
    ∧ fs env !! join (repo_path repo) [db; coll_id coll] = Some (Dir entries)
    ∧ fname ∈ entries
    ∧ (splitext fname).2 ≠ ".base"
    ∧ ∀ cl database base,
        cl ∈ classes_by_ids coll →
        dbs !! db = Some database →
        getbase database !! cl_id cl = Some base →
        fname ≠ filename base.

(** The same for the pass over the drawings: the file is not the basename
    of the PNG or SVG artifact of a class of [coll]. *)
Definition drawings_stray (env : Env) (repo : Repository) (dbs : gmap string Database)
    (coll : Collection) (r : row) : Prop :=
  ∃ fname entries,
    r = [PStr fname; PStr (join (repo_path repo) ["drawings"; coll_id coll])]
    ∧ fs env !! join (repo_path repo) ["drawings"; coll_id coll] = Some (Dir entries)
    ∧ fname ∈ entries
    ∧ (splitext fname).2 ≠ ".base"
    ∧ ∀ cl drawings drawing,
        cl ∈ classes_by_ids coll →
        dbs !! "drawings" = Some drawings →
        getbase drawings !! cl_id cl = Some drawing →
        (∀ png, get_png drawing = Some png → fname ≠ basename png)
        ∧ (∀ svg, get_svg drawing = Some svg → fname ≠ basename svg).

Definition stray (env : Env) (repo : Repository) (dbs : gmap string Database)
    (r : row) : Prop :=
  (∃ db coll, db ∈ keys dbs ∧ db ≠ "drawings" ∧ coll ∈ collections repo
              ∧ backend_stray env repo dbs db coll r)
  ∨ (∃ coll, coll ∈ collections repo ∧ drawings_stray env repo dbs coll r).

(** ** Predicates on computations *)

(** [m] leaves the state alone, and the value it returns, if it returns,
    meets [Q]. *)
Definition pure_with {St A} (m : Py St A) (Q : A → Prop) : Prop :=
  ∀ s, (∃ a, m s = Returns a s ∧ Q a) ∨ (∃ e, m s = Raises e s).

(** However [m] ends, it has appended rows to the table and done nothing
    else to it, and every row appended meets [Good]. *)
Definition appends_only {A} (Good : row → Prop) (m : Py (list row) A) : Prop :=
  ∀ rows0, ∃ added,
    final_state (m rows0) = rows0 ++ added ∧ Forall Good added.

(** ** The layout of a rendered table *)

(** The lengths of the cells that the rows have in column [i] *)
Definition column (i : nat) (rows : list row) : list nat :=
  omap (λ r, String.length ∘ str <$> r !! i) rows.

(** The width of column [i] under the header label [h] *)
Definition column_width (rows : list row) (i : nat) (h : string) : nat :=
  (String.length h `max` max_list (column i rows)) + 2.

Definition column_widths (headers : list string) (rows : list row) : list nat :=
  imap (column_width rows) headers.

(** The widths once the row [r] has been measured *)
Definition widen (width : list nat) (r : row) : list nat :=
  imap (λ i w, match r !! i with
               | Some cell => String.length (str cell) `max` w
               | None => w
               end) width.

(** ** Further reports *)

Definition MissingSVGSource_row (entry : string * BaseEntry) : row :=
  [PStr (filename entry.2); PStr entry.1].

Definition lacks_svg (entry : string * BaseEntry) : bool :=
  bool_decide (get_svg entry.2 = None).

(** A row of the base geometry check: its two last cells tell, for FreeCAD
    and for OpenSCAD, whether the class has geometry, and are not both true. *)
Definition MissingBase_shaped (r : row) : Prop :=
  ∃ id coll std in_freecad in_openscad,
    r = [PStr id; PStr coll; std; PBool in_freecad; PBool in_openscad]
    ∧ ¬ (in_freecad = true ∧ in_openscad = true).

(** Every base of every backend passes the license validator. *)
Definition all_bases_pass (env : Env) (dbs : gmap string Database) : Prop :=
  ∀ db database id base,
    dbs !! db = Some database → getbase database !! id = Some base →
    check_license env (license_name base) (license_url base) = true.

(** The entries of a listing that are none of the [known] names *)
Definition unknown_entries (known : list string) (entries : list string) : list string :=
  List.filter (λ f, bool_decide (f ∉ known)) entries.

(** The rows that the directory of the collection [coll] for the backend
    [db] gives rise to: none unless it is a directory, and else one for each
    entry, in the order of the listing, that is no sidecar file and not the
    BaseEntry filename of a class of [coll]. *)
Definition backend_contribution (env : Env) (repo : Repository)
    (dbs : gmap string Database) (db : string) (coll : Collection) : list row :=
  let path := join (repo_path repo) [db; coll_id coll] in
  match fs env !! path with
  | Some (Dir entries) =>
      stray_row path <$>
        List.filter not_sidecar
          (unknown_entries (classes_by_ids coll ≫= registered_names dbs db) entries)
  | _ => []
  end.

Definition drawings_contribution (env : Env) (repo : Repository)
    (dbs : gmap string Database) (coll : Collection) : list row :=
  let path := join (repo_path repo) ["drawings"; coll_id coll] in
  match fs env !! path with
  | Some (Dir entries) =>
      stray_row path <$>
        List.filter not_sidecar
          (unknown_entries (classes_by_ids coll ≫= drawing_names dbs) entries)
  | _ => []
  end.

(** All the rows of the stray file check: the backends other than the
    drawings in the order of the dict, each with the collections in order,
    and then the drawings, if there is such a database. *)
Definition UnknownFile_rows (env : Env) (repo : Repository)
    (dbs : gmap string Database) : list row :=
  (db ← keys dbs;
   if bool_decide (db = "drawings") then []
   else coll ← collections repo; backend_contribution env repo dbs db coll)
  ++ (if contains dbs "drawings"
      then coll ← collections repo; drawings_contribution env repo dbs coll
      else []).

(** The rows that the function local to [UnknownClassTable.__init__] makes:
    for every backend, base and class id named by the base, in the order of
    the loops, a row when the catalog has no class of that id. *)
Definition UnknownClass_rows (repo : Repository) (dbs : gmap string Database)
    : list row :=
  kv ← map_to_list dbs;
  base ← (map_to_list (getbase kv.2)).*2;
  cl_id ← classids base;
  if bool_decide (cl_id ∈ class_ids repo) then [] else [[PStr cl_id; PStr kv.1]].

(** * Properties *)

(** ** Loops *)

Section loops.
Context {St : Type}.
Implicit Types s : St.

Lemma bind_unfold {A B} (m : Py St A) (f : A → Py St B) s :
  (m ≫= f) s = match m s with
               | Returns a s' => f a s'
               | Raises e s' => Raises e s'
               end.
Proof. reflexivity. Qed.

Lemma getitem_Some {V} (d : gmap string V) k v s :
  d !! k = Some v → getitem d k s = Returns v s.
Proof. unfold getitem. by intros ->. Qed.

Lemma for_each_ext {X} (xs : list X) (body body' : X → Py St unit) s :
  (∀ x s', x ∈ xs → body x s' = body' x s') →
  for_each xs body s = for_each xs body' s.
Proof.
  revert s. induction xs as [|x xs IH]; intros s Hext; [done|].
  simpl. rewrite !bind_unfold, Hext by left.
  destruct (body' x s); [|done]. apply IH. intros; apply Hext. by right.
Qed.

Lemma for_each_app {X} (xs ys : list X) (body : X → Py St unit) s :
  for_each (xs ++ ys) body s = (for_each xs body;; for_each ys body) s.
Proof.
  revert s. induction xs as [|x xs IH]; intros s; [done|].
  simpl. rewrite !bind_unfold. destruct (body x s); [|done].
  rewrite IH. by rewrite bind_unfold.
Qed.

Lemma for_each_fmap {X Y} (h : X → Y) (xs : list X) (body : Y → Py St unit) s :
  for_each (h <$> xs) body s = for_each xs (body ∘ h) s.
Proof.
  revert s. induction xs as [|x xs IH]; intros s; [done|].
  simpl. rewrite !bind_unfold. by destruct (body (h x) s).
Qed.

(** A loop whose body leaves the state alone does so as a whole. *)
Lemma for_each_skip {X} (xs : list X) (body : X → Py St unit) s :
  (∀ x s', x ∈ xs → body x s' = Returns tt s') →
  for_each xs body s = Returns tt s.
Proof.
  induction xs as [|x xs IH]; intros Hskip; [done|].
  simpl. rewrite bind_unfold, Hskip by left. apply IH.
  intros; apply Hskip. by right.
Qed.

(** [for k in d: ... d[k] ...] visits the items of the dict. *)
Lemma for_each_keys {V} (d : gmap string V) (body : string → V → Py St unit) s :
  for_each (keys d) (λ k, v ← getitem d k; body k v) s
  = for_each (map_to_list d) (λ kv, body kv.1 kv.2) s.
Proof.
  unfold keys. rewrite for_each_fmap. apply for_each_ext.
  intros [k v] s' Hin%elem_of_map_to_list. simpl.
  by rewrite bind_unfold, (getitem_Some _ _ v).
Qed.

(** The nested loops over the collections and their classes visit the
    class occurrences in order. *)
Lemma for_each_classes repo (body : Collection → BOLTSClass → Py St unit) s :
  for_each (collections repo) (λ coll, for_each (classes_by_ids coll) (body coll)) s
  = for_each (class_occurrences repo) (λ occ, body occ.1 occ.2) s.
Proof.
  unfold class_occurrences. revert s.
  induction (collections repo) as [|coll colls IH]; intros s; [done|].
  rewrite bind_cons, for_each_app. simpl. rewrite !bind_unfold.
  assert (∀ s', for_each (classes_by_ids coll) (body coll) s'
    = for_each (classes_by_ids coll ≫= λ cl, [(coll, cl)])
        (λ occ, body occ.1 occ.2) s') as ->.
  { induction (classes_by_ids coll) as [|cl cls IHc]; intros s'; [done|].
    rewrite bind_cons. simpl. rewrite !bind_unfold.
    destruct (body coll cl s'); [apply IHc|done]. }
  destruct (for_each _ _ s); [apply IH|done].
Qed.
End loops.

(** A loop that appends the row [f x] for each [x] that meets [cond]. *)
Lemma for_each_append_if {X} (xs : list X) (cond : X → bool) (f : X → row)
    (rows0 : list row) :
  for_each xs (λ x, if cond x then rows_append (f x) else mret tt) rows0
  = Returns tt (rows0 ++ (f <$> List.filter cond xs)).
Proof.
  revert rows0. induction xs as [|x xs IH]; intros rows0.
  { simpl. by rewrite app_nil_r. }
  simpl. rewrite bind_unfold. destruct (cond x); simpl.
  - unfold rows_append, modify. rewrite IH. by rewrite <-app_assoc.
  - apply IH.
Qed.

(** ** [os.path] on sample paths *)

Example join_collection_directory :
  join "/bolts" ["freecad"; "hex"] = "/bolts/freecad/hex".
Proof. reflexivity. Qed.

Example join_restarts_at_absolute_component :
  join "/bolts/" ["freecad"; "/srv/hex"] = "/srv/hex".
Proof. reflexivity. Qed.

Example basename_of_artifact : basename "/bolts/drawings/hex/hex.png" = "hex.png".
Proof. reflexivity. Qed.

Example splitext_sidecar : splitext "hex.base" = ("hex", ".base").
Proof. reflexivity. Qed.

(** The dots that lead a file name start no extension. *)
Example splitext_leading_dot : splitext ".base" = (".base", "").
Proof. reflexivity. Qed.

Example splitext_dot_in_directory : splitext "hex.d/base" = ("hex.d/base", "").
Proof. reflexivity. Qed.

(** ** Checks that flag classes *)

Lemma contains_false {V} (d : gmap string V) k :
  negb (contains d k) = bool_decide (d !! k = None).
Proof.
  unfold contains. destruct (d !! k) eqn:E.
  - rewrite bool_decide_eq_true_2 by eauto. by rewrite bool_decide_eq_false_2.
  - rewrite bool_decide_eq_false_2 by (by intros [??]).
    by rewrite bool_decide_eq_true_2.
Qed.

(** A body that decides on its element alone whether to append a row,
    run over the class occurrences. *)
Lemma populate_by_class repo (body : Collection → BOLTSClass → Py (list row) unit)
    (cond : Collection * BOLTSClass → bool) (f : Collection * BOLTSClass → row) rows0 :
  (∀ occ rows1, body occ.1 occ.2 rows1
     = (if cond occ then rows_append (f occ) else mret tt) rows1) →
  for_each (collections repo) (λ coll, for_each (classes_by_ids coll) (body coll)) rows0
  = Returns tt (rows0 ++ (f <$> List.filter cond (class_occurrences repo))).
Proof.
  intros Hbody. rewrite for_each_classes, <-for_each_append_if.
  apply for_each_ext. intros occ rows1 _. apply Hbody.
Qed.

(** Among the rows reported for class occurrences with distinct keys, those
    that carry the key of one occurrence are its own row, if it has one. *)
Lemma rows_for_unique {X} (key : X → string) (cond : X → bool) (f : X → row)
    (xs : list X) (x : X) :
  (∀ y, f y !! 0 = Some (PStr (key y))) →
  NoDup (key <$> xs) →
  x ∈ xs →
  rows_for (key x) (f <$> List.filter cond xs) = if cond x then [f x] else [].
Proof.
  intros Hkey. unfold rows_for.
  assert (∀ ys, key x ∉ key <$> ys →
    List.filter (λ r, bool_decide (r !! 0 = Some (PStr (key x))))
      (f <$> List.filter cond ys) = []) as Hnone.
  { induction ys as [|y ys IH]; intros Hnotin; [done|].
    rewrite fmap_cons, not_elem_of_cons in Hnotin. destruct Hnotin as [Hne Hnotin].
    simpl. destruct (cond y); simpl; [|by apply IH].
    rewrite bool_decide_eq_false_2; [by apply IH|].
    rewrite Hkey. intros [= ?]. by apply Hne. }
  induction xs as [|y xs IH]; intros Hnodup Hin; [by apply elem_of_nil in Hin|].
  rewrite fmap_cons, NoDup_cons in Hnodup. destruct Hnodup as [Hnotin Hnodup].
  apply elem_of_cons in Hin as [->|Hin]; simpl.
  - destruct (cond y); simpl; [|by apply Hnone].
    rewrite bool_decide_eq_true_2 by apply Hkey. by rewrite Hnone.
  - assert (key y ≠ key x) as Hne.
    { intros Heq. apply Hnotin. rewrite Heq. by apply (list_elem_of_fmap_2 key). }
    destruct (cond y); simpl; [|by apply IH].
    rewrite bool_decide_eq_false_2; [by apply IH|].
    rewrite Hkey. by intros [= ?].
Qed.

(** C1, as amended.  With both geometry backends present,
    [MissingBaseTable.populate] appends one row for every class occurrence
    whose class id is absent from the FreeCAD base map or from the OpenSCAD
    base map, in catalog order, and no other row.  When the class ids of
    the catalog are distinct, a class has exactly one row if it lacks a
    BaseEntry in at least one of the two backends, and none if it has one in
    both. *)
Theorem MissingBase_flags_absence_from_either repo dbs freecad openscad rows0 :
  dbs !! "freecad" = Some freecad →
  dbs !! "openscad" = Some openscad →
  let added := MissingBase_row freecad openscad <$>
                 List.filter (absent_from_either freecad openscad)
                   (class_occurrences repo) in
  MissingBaseTable_populate repo dbs rows0 = Returns tt (rows0 ++ added)
  ∧ (NoDup (class_ids repo) →
     ∀ coll cl, (coll, cl) ∈ class_occurrences repo →
       rows_for (cl_id cl) added
       = if bool_decide (getbase freecad !! cl_id cl = None
                         ∨ getbase openscad !! cl_id cl = None)
         then [[PStr (cl_id cl); PStr (coll_id coll); standard cl;
                PBool (contains (getbase freecad) (cl_id cl));
                PBool (contains (getbase openscad) (cl_id cl))]]
         else []).
Proof.
  intros Hf Ho added. split.
  - apply populate_by_class. intros [coll cl] rows1. simpl.
    rewrite bind_unfold, (getitem_Some _ _ _ _ Hf).
    rewrite bind_unfold, (getitem_Some _ _ _ _ Ho).
    unfold absent_from_either, MissingBase_row. simpl.
    by rewrite andb_comm, negb_andb, !contains_false, bool_decide_or.
  - intros Hnodup coll cl Hin. subst added.
    by rewrite (rows_for_unique (λ occ, cl_id occ.2) (absent_from_either freecad openscad)
                  (MissingBase_row freecad openscad) _ (coll, cl)).
Qed.

Lemma MissingBase_flags_absence_from_either_witness :
  let added := MissingBase_row ex_freecad ex_openscad <$>
                 List.filter (absent_from_either ex_freecad ex_openscad)
                   (class_occurrences ex_repo) in
  MissingBaseTable_populate ex_repo ex_dbs [] = Returns tt ([] ++ added)
  ∧ rows_for "A" added
    = [[PStr "A"; PStr "hex"; PStr "DIN933"; PBool true; PBool false]].
Proof.
  assert (NoDup (class_ids ex_repo)) as Hnodup by compute_done.
  destruct (MissingBase_flags_absence_from_either ex_repo ex_dbs ex_freecad ex_openscad [])
    as [Hrun Hrows]; [reflexivity..|].
  split; [exact Hrun|].
  apply (Hrows Hnodup ex_hex (ex_class "A" [])).
  vm_compute. apply list_elem_of_here.
Defined.

(** C1, as stated, fails: class [A] has a BaseEntry in the FreeCAD backend,
    and [MissingBaseTable.populate] appends a row for it all the same. *)
Lemma MissingBase_flags_class_with_one_base :
  ex_dbs !! "freecad" = Some ex_freecad
  ∧ is_Some (getbase ex_freecad !! "A")
  ∧ MissingBaseTable_populate ex_repo ex_dbs []
    = Returns tt
        [[PStr "A"; PStr "hex"; PStr "DIN933"; PBool true; PBool false];
         [PStr "B"; PStr "hex"; PStr "DIN933"; PBool false; PBool false]].
Proof. split_and!; [reflexivity|by eexists|reflexivity]. Qed.

(** C7.  [MissingCommonParametersTable.populate] appends the row (class id,
    collection id, standard) for every class occurrence whose list of common
    parameters is empty, in catalog order, and nothing else.  When the class
    ids of the catalog are distinct, the rows that carry the id of a class
    are exactly one row if its common parameters are empty and none
    otherwise. *)
Theorem MissingCommonParameters_flags_exactly_once repo dbs rows0 :
  let added := MissingCommonParameters_row <$>
                 List.filter no_common_parameters (class_occurrences repo) in
  MissingCommonParametersTable_populate repo dbs rows0 = Returns tt (rows0 ++ added)
  ∧ (NoDup (class_ids repo) →
     ∀ coll cl, (coll, cl) ∈ class_occurrences repo →
       rows_for (cl_id cl) added
       = if bool_decide (common (parameters cl) = [])
         then [[PStr (cl_id cl); PStr (coll_id coll); standard cl]] else []).
Proof.
  split.
  - apply populate_by_class. intros [coll cl] rows1. simpl.
    unfold no_common_parameters. simpl.
    destruct (common (parameters cl)) as [|p ps]; done.
  - intros Hnodup coll cl Hin.
    by rewrite (rows_for_unique (λ occ, cl_id occ.2) no_common_parameters
                  MissingCommonParameters_row _ (coll, cl)).
Qed.

Lemma MissingCommonParameters_flags_exactly_once_witness :
  NoDup (class_ids ex_repo)
  ∧ rows_for "A" (MissingCommonParameters_row <$>
      List.filter no_common_parameters (class_occurrences ex_repo))
    = [[PStr "A"; PStr "hex"; PStr "DIN933"]]
  ∧ rows_for "B" (MissingCommonParameters_row <$>
      List.filter no_common_parameters (class_occurrences ex_repo))
    = [].
Proof.
  assert (NoDup (class_ids ex_repo)) as Hnodup by compute_done.
  pose proof (MissingCommonParameters_flags_exactly_once ex_repo ex_dbs []) as [_ Hrows].
  split_and!; [done|..].
  - apply (Hrows Hnodup ex_hex
             (ex_class "A" [])).
    vm_compute. apply list_elem_of_here.
  - apply (Hrows Hnodup ex_hex
             (ex_class "B" ["key"])).
    vm_compute. apply list_elem_of_further, list_elem_of_here.
Defined.

(** With a drawings backend, [MissingDrawingTable.populate] appends the rows
    of the class occurrences without a drawing to whatever rows the table
    holds already. *)
Lemma MissingDrawingTable_populate_spec repo dbs drawings rows0 :
  dbs !! "drawings" = Some drawings →
  MissingDrawingTable_populate repo dbs rows0
  = Returns tt (rows0 ++ (MissingDrawing_row <$>
      List.filter (lacks_drawing drawings) (class_occurrences repo))).
Proof.
  intros Hd. apply populate_by_class. intros [coll cl] rows1. simpl.
  rewrite bind_unfold, (getitem_Some _ _ _ _ Hd).
  by rewrite contains_false.
Qed.

(** C3.  For every class occurrence whose class id is not a key of the
    drawings database, and for no other, [MissingDrawingTable.populate]
    appends one row, and that row holds the collection id and the standard
    only: two cells, against the three headers the check declares, the
    first of which names the class id. *)
Theorem MissingDrawing_row_omits_class_id repo dbs drawings rows0 :
  dbs !! "drawings" = Some drawings →
  ∃ added,
    MissingDrawingTable_populate repo dbs rows0 = Returns tt (rows0 ++ added)
    ∧ Forall2 (λ occ r, r = [PStr (coll_id occ.1); standard occ.2])
        (List.filter (λ occ, bool_decide (getbase drawings !! cl_id occ.2 = None))
           (class_occurrences repo))
        added
    ∧ Forall (λ r, length r = 2) added
    ∧ get_headers MissingDrawingTable_init = ["Class id"; "Collection"; "Standards"].
Proof.
  intros Hd. eexists. split; [by apply MissingDrawingTable_populate_spec|].
  split_and!; [| |done].
  - apply Forall2_fmap_r, Forall_Forall2_diag, Forall_forall. done.
  - apply Forall_fmap, Forall_forall. done.
Qed.

Lemma MissingDrawing_row_omits_class_id_witness :
  ∃ added,
    MissingDrawingTable_populate ex_repo ex_dbs [] = Returns tt ([] ++ added)
    ∧ Forall2 (λ occ r, r = [PStr (coll_id occ.1); standard occ.2])
        (List.filter (λ occ, bool_decide (getbase ex_drawings !! cl_id occ.2 = None))
           (class_occurrences ex_repo))
        added
    ∧ Forall (λ r, length r = 2) added
    ∧ get_headers MissingDrawingTable_init = ["Class id"; "Collection"; "Standards"].
Proof.
  apply (MissingDrawing_row_omits_class_id ex_repo ex_dbs ex_drawings []).
  reflexivity.
Defined.

(** C8.  With a drawings backend, a run of [MissingDrawingTable.populate]
    appends the same rows whatever the table holds: the rows of the class
    occurrences without a drawing, by collection and then by class.  So two
    runs on fresh tables give the same rows in the same order, and a second
    run on the same table appends the rows of the first run once more. *)
Theorem MissingDrawing_rerun_same_rows env repo dbs drawings :
  dbs !! "drawings" = Some drawings →
  let reported := MissingDrawing_row <$>
                    List.filter (lacks_drawing drawings) (class_occurrences repo) in
  (∀ rows0, MissingDrawingTable_populate repo dbs rows0 = Returns tt (rows0 ++ reported))
  ∧ ∃ once twice,
      call_populate env repo dbs MissingDrawingTable_init = Returns tt once
      ∧ get_table once = reported
      ∧ call_populate env repo dbs once = Returns tt twice
      ∧ get_table twice = reported ++ reported.
Proof.
  intros Hd reported.
  split; [intros; by apply MissingDrawingTable_populate_spec|].
  unfold call_populate, on_rows. simpl.
  rewrite !(MissingDrawingTable_populate_spec _ _ drawings) by done.
  do 2 eexists. split_and!; [reflexivity|reflexivity| |].
  - simpl. by rewrite (MissingDrawingTable_populate_spec _ _ drawings).
  - done.
Qed.

Lemma MissingDrawing_rerun_same_rows_witness :
  let reported := MissingDrawing_row <$>
                    List.filter (lacks_drawing ex_drawings) (class_occurrences ex_repo) in
  (∀ rows0, MissingDrawingTable_populate ex_repo ex_dbs rows0
            = Returns tt (rows0 ++ reported))
  ∧ ∃ once twice,
      call_populate ex_env ex_repo ex_dbs MissingDrawingTable_init = Returns tt once
      ∧ get_table once = reported
      ∧ call_populate ex_env ex_repo ex_dbs once = Returns tt twice
      ∧ get_table twice = reported ++ reported.
Proof.
  apply (MissingDrawing_rerun_same_rows ex_env ex_repo ex_dbs ex_drawings).
  reflexivity.
Defined.

(** The function that [UnknownClassTable.__init__] defines would report the
    class ids that a base names and the catalog lacks. *)
Example UnknownClassTable_init_populate_reports :
  UnknownClassTable_init_populate ex_repo ex_dbs_unknown []
  = Returns tt [[PStr "Z"; PStr "freecad"]].
Proof. reflexivity. Qed.

(** C2.  [UnknownClassTable] has no [populate] of its own, the one written
    in its source being a local function of [__init__]; a call to
    [populate] on an instance runs the one of [ErrorTable], returns, and
    leaves the table as it was.  The rows of the instance that [__init__]
    makes stay empty. *)
Theorem UnknownClassTable_populate_appends_nothing env repo dbs :
  own_populate env UnknownClassTable = None
  ∧ call_populate env repo dbs UnknownClassTable_init = Returns tt UnknownClassTable_init
  ∧ get_table UnknownClassTable_init = []
  ∧ ∀ self, klass self = UnknownClassTable →
      call_populate env repo dbs self = Returns tt self.
Proof.
  split_and!; [done..|].
  intros [k t d r h]. simpl. by intros ->.
Qed.

Lemma UnknownClassTable_populate_appends_nothing_witness :
  call_populate ex_env ex_repo ex_dbs UnknownClassTable_init
  = Returns tt UnknownClassTable_init.
Proof.
  pose proof (UnknownClassTable_populate_appends_nothing ex_env ex_repo ex_dbs)
    as (_ & _ & _ & Hnoop).
  apply (Hnoop UnknownClassTable_init). reflexivity.
Defined.

(** ** Licenses *)

Section more_loops.
Context {St : Type}.
Implicit Types s : St.

(** A loop whose body either passes or raises [e], the state untouched,
    does the same as a whole, and raises as soon as one element does. *)
Lemma for_each_skip_or_raise {X} (xs : list X) (body : X → Py St unit) e s :
  (∀ x s', x ∈ xs → body x s' = Returns tt s' ∨ body x s' = Raises e s') →
  for_each xs body s = Returns tt s ∨ for_each xs body s = Raises e s.
Proof.
  induction xs as [|x xs IH]; intros Hbody; [by left|].
  simpl. rewrite bind_unfold.
  destruct (Hbody x s) as [-> | ->]; [by left| |by right].
  apply IH. intros; apply Hbody. by right.
Qed.

Lemma for_each_raises {X} (xs : list X) (body : X → Py St unit) e x s :
  (∀ y s', y ∈ xs → body y s' = Returns tt s' ∨ body y s' = Raises e s') →
  x ∈ xs →
  body x s = Raises e s →
  for_each xs body s = Raises e s.
Proof.
  induction xs as [|y xs IH]; intros Hbody Hin Hx; [by apply elem_of_nil in Hin|].
  simpl. rewrite bind_unfold.
  destruct (Hbody y s) as [Hy | Hy]; [by left| |by rewrite Hy].
  rewrite Hy. apply elem_of_cons in Hin as [->|Hin]; [congruence|].
  apply IH; [|done..]. intros; apply Hbody. by right.
Qed.
End more_loops.

(** A loop whose body appends the rows [g x] appends them all, in order. *)
Lemma for_each_appends {X} (xs : list X) (body : X → Py (list row) unit)
    (g : X → list row) (rows0 : list row) :
  (∀ x rows1, x ∈ xs → body x rows1 = Returns tt (rows1 ++ g x)) →
  for_each xs body rows0 = Returns tt (rows0 ++ (xs ≫= g)).
Proof.
  revert rows0. induction xs as [|x xs IH]; intros rows0 Hbody.
  { simpl. by rewrite app_nil_r. }
  simpl. rewrite bind_unfold, Hbody by left. rewrite IH.
  - by rewrite <-app_assoc.
  - intros; apply Hbody. by right.
Qed.

(** The first loop of [UnsupportedLicenseTable.populate]: it reports the
    collections that fail the validator and leaves [coll] bound to the last
    collection, or as it was when there is none. *)
Lemma collections_loop env (colls : list Collection) (coll_var : option Collection) rows0 :
  for_fold colls coll_var (λ coll _,
    (if negb (check_license env (coll_license_name coll) (coll_license_url coll)) then
       rows_append ([PStr "Collection"] ++ [PStr (coll_id coll)]
                    ++ [PStr (coll_license_name coll)] ++ [PStr (coll_license_url coll)]
                    ++ [PStr (String.concat "," (authors coll))])
     else mret tt);;
    mret (Some coll)) rows0
  = Returns (match last colls with Some coll => Some coll | None => coll_var end)
      (rows0 ++ (Collection_license_row <$> List.filter (unsupported_collection env) colls)).
Proof.
  revert coll_var rows0. induction colls as [|coll colls IH]; intros coll_var rows0.
  { simpl. by rewrite app_nil_r. }
  simpl. rewrite !bind_unfold. unfold unsupported_collection at 1.
  destruct (negb _); simpl; rewrite IH, last_cons.
  - rewrite <-app_assoc. by destruct (last colls).
  - by destruct (last colls).
Qed.

(** The second loop, once [coll] is bound to [who] *)
Lemma bases_loop env dbs (who : Collection) rows0 :
  for_each (keys dbs) (λ db,
    database ← getitem dbs db;
    for_each (iteritems (getbase database)) (λ '(id, base),
      if negb (check_license env (license_name base) (license_url base)) then
        coll ← read_local "coll" (Some who);
        rows_append ([PStr db] ++ [PStr id] ++ [PStr (license_name base)]
                     ++ [PStr (license_url base)]
                     ++ [PStr (String.concat "," (authors coll))])
      else mret tt)) rows0
  = Returns tt (rows0 ++ base_license_rows env dbs who).
Proof.
  rewrite (for_each_keys dbs (λ db database, for_each _ _)).
  apply for_each_appends. intros [db database] rows1 _. simpl.
  rewrite <-for_each_append_if. apply for_each_ext.
  by intros [id base] rows2 _.
Qed.

Lemma UnsupportedLicenseTable_populate_spec env repo dbs who rows0 :
  last (collections repo) = Some who →
  UnsupportedLicenseTable_populate env repo dbs rows0
  = Returns tt (rows0
      ++ (Collection_license_row <$>
            List.filter (unsupported_collection env) (collections repo))
      ++ base_license_rows env dbs who).
Proof.
  intros Hlast. unfold UnsupportedLicenseTable_populate.
  rewrite bind_unfold. simpl. rewrite collections_loop, Hlast.
  by rewrite bases_loop, <-app_assoc.
Qed.

Lemma elem_of_base_license_rows env dbs who r :
  r ∈ base_license_rows env dbs who ↔
  ∃ db database id base,
    dbs !! db = Some database ∧ getbase database !! id = Some base
    ∧ check_license env (license_name base) (license_url base) = false
    ∧ r = Base_license_row who db (id, base).
Proof.
  unfold base_license_rows. rewrite list_elem_of_bind. split.
  - intros ([db database] & Hr & Hdb%elem_of_map_to_list). simpl in Hr.
    apply list_elem_of_fmap in Hr as ([id base] & -> & Hin).
    apply list_elem_of_In, filter_In in Hin as [Hin Hbad].
    apply list_elem_of_In, elem_of_map_to_list in Hin.
    exists db, database, id, base. split_and!; [done..| |done].
    by apply negb_true_iff in Hbad.
  - intros (db & database & id & base & Hdb & Hbase & Hbad & ->).
    exists (db, database). split; [|by apply elem_of_map_to_list].
    simpl. apply list_elem_of_fmap. exists (id, base). split; [done|].
    apply list_elem_of_In, filter_In. split.
    + by apply list_elem_of_In, elem_of_map_to_list.
    + unfold unsupported_base. simpl. by rewrite Hbad.
Qed.

(** C4.  When the catalog has a last collection [who],
    [UnsupportedLicenseTable.populate] returns, and after the rows of the
    collections it appends one row for every BaseEntry of every backend that
    fails the validator; the Authors cell of each of these rows is the
    joined author list of [who], the collection on which the first loop
    ended. *)
Theorem UnsupportedLicense_authors_of_last_collection env repo dbs who rows0 :
  last (collections repo) = Some who →
  ∃ added,
    UnsupportedLicenseTable_populate env repo dbs rows0
    = Returns tt (rows0
        ++ (Collection_license_row <$>
              List.filter (unsupported_collection env) (collections repo))
        ++ added)
    ∧ (∀ r, r ∈ added ↔
         ∃ db database id base,
           dbs !! db = Some database ∧ getbase database !! id = Some base
           ∧ check_license env (license_name base) (license_url base) = false
           ∧ r = [PStr db; PStr id; PStr (license_name base); PStr (license_url base);
                  PStr (String.concat "," (authors who))])
    ∧ Forall (λ r, r !! 4 = Some (PStr (String.concat "," (authors who)))) added.
Proof.
  intros Hlast. exists (base_license_rows env dbs who).
  split; [by apply UnsupportedLicenseTable_populate_spec|]. split.
  - intros r. apply elem_of_base_license_rows.
  - apply Forall_forall. intros r Hr.
    apply elem_of_base_license_rows in Hr as (? & ? & ? & ? & _ & _ & _ & ->). done.
Qed.

Lemma UnsupportedLicense_authors_of_last_collection_witness :
  ∃ added,
    UnsupportedLicenseTable_populate ex_env ex_repo ex_dbs []
    = Returns tt ([]
        ++ (Collection_license_row <$>
              List.filter (unsupported_collection ex_env) (collections ex_repo))
        ++ added)
    ∧ (∀ r, r ∈ added ↔
         ∃ db database id base,
           ex_dbs !! db = Some database ∧ getbase database !! id = Some base
           ∧ check_license ex_env (license_name base) (license_url base) = false
           ∧ r = [PStr db; PStr id; PStr (license_name base); PStr (license_url base);
                  PStr (String.concat "," (authors ex_hex))])
    ∧ Forall (λ r, r !! 4 = Some (PStr (String.concat "," (authors ex_hex)))) added.
Proof.
  apply (UnsupportedLicense_authors_of_last_collection ex_env ex_repo ex_dbs ex_hex []).
  reflexivity.
Defined.

(** The second loop, while [coll] is unbound: a base that fails the
    validator makes the method raise. *)
Lemma bases_loop_unbound env dbs rows0 :
  for_each (keys dbs) (λ db,
    database ← getitem dbs db;
    for_each (iteritems (getbase database)) (λ '(id, base),
      if negb (check_license env (license_name base) (license_url base)) then
        coll ← read_local "coll" (@None Collection);
        rows_append ([PStr db] ++ [PStr id] ++ [PStr (license_name base)]
                     ++ [PStr (license_url base)]
                     ++ [PStr (String.concat "," (authors coll))])
      else mret tt)) rows0
  = for_each (map_to_list dbs) (λ kv,
      for_each (map_to_list (getbase kv.2)) (λ entry,
        if unsupported_base env entry
        then raise (UnboundLocalError "coll") else mret tt)) rows0.
Proof.
  rewrite (for_each_keys dbs (λ db database, for_each _ _)).
  apply for_each_ext. intros [db database] rows1 _. simpl.
  apply for_each_ext. intros [id base] rows2 _.
  unfold unsupported_base. simpl. by destruct (negb _).
Qed.

(** C10.  With no collection in the catalog, [coll] is never bound, and
    [UnsupportedLicenseTable.populate] raises [UnboundLocalError] (a
    [NameError]) for the name [coll] as soon as a BaseEntry of some backend
    fails the validator, no row appended.  With at least one collection the
    method returns. *)
Theorem UnsupportedLicense_unbound_without_collections env repo dbs rows0 :
  (collections repo = [] →
   (∃ db database id base,
      dbs !! db = Some database ∧ getbase database !! id = Some base
      ∧ check_license env (license_name base) (license_url base) = false) →
   UnsupportedLicenseTable_populate env repo dbs rows0
   = Raises (UnboundLocalError "coll") rows0)
  ∧ (collections repo ≠ [] →
     ∃ rows1, UnsupportedLicenseTable_populate env repo dbs rows0 = Returns tt rows1).
Proof.
  split.
  - intros Hnil (db & database & id & base & Hdb & Hbase & Hbad).
    unfold UnsupportedLicenseTable_populate. rewrite Hnil, bind_unfold. simpl.
    rewrite bases_loop_unbound.
    assert (∀ entry (rows2 : list row),
      (if unsupported_base env entry
       then raise (UnboundLocalError "coll") else mret tt) rows2 = Returns tt rows2
      ∨ (if unsupported_base env entry
         then raise (UnboundLocalError "coll") else mret tt) rows2
        = Raises (UnboundLocalError "coll") rows2) as Hentry.
    { intros entry rows2. destruct (unsupported_base env entry); [by right|by left]. }
    apply (for_each_raises _ _ _ (db, database)).
    + intros kv rows1 _. apply for_each_skip_or_raise. intros; by apply Hentry.
    + by apply elem_of_map_to_list.
    + simpl. apply (for_each_raises _ _ _ (id, base)).
      * intros; by apply Hentry.
      * by apply elem_of_map_to_list.
      * unfold unsupported_base. simpl. by rewrite Hbad.
  - intros Hsome. apply last_is_Some in Hsome as [who Hlast].
    eexists. by apply UnsupportedLicenseTable_populate_spec.
Qed.

Lemma UnsupportedLicense_unbound_without_collections_witness :
  UnsupportedLicenseTable_populate ex_env ex_empty_repo ex_dbs []
  = Raises (UnboundLocalError "coll") []
  ∧ ∃ rows1, UnsupportedLicenseTable_populate ex_env ex_repo ex_dbs [] = Returns tt rows1.
Proof.
  split.
  - apply (UnsupportedLicense_unbound_without_collections ex_env ex_empty_repo ex_dbs []).
    + reflexivity.
    + exists "freecad", ex_freecad, "A", (ex_base "hex.py" "Proprietary").
      split_and!; reflexivity.
  - apply (UnsupportedLicense_unbound_without_collections ex_env ex_repo ex_dbs []).
    discriminate.
Defined.

(** ** Stray files *)

Lemma exists_false (fs : gmap string fsnode) path :
  fs !! path = None → exists_ fs path = false.
Proof.
  intros Hnone. unfold exists_, contains. rewrite Hnone.
  apply bool_decide_eq_false_2. by intros [??].
Qed.

Lemma for_each_skip_one {St X} (xs ys : list X) (x : X) (body : X → Py St unit) s :
  (∀ s', body x s' = Returns tt s') →
  for_each (xs ++ x :: ys) body s = for_each (xs ++ ys) body s.
Proof.
  intros Hskip. rewrite !for_each_app, !bind_unfold.
  destruct (for_each xs body s); [|done].
  simpl. by rewrite bind_unfold, Hskip.
Qed.

(** C9.  A collection whose directory for a backend does not exist is
    passed over by the loop body of that backend, and by the one of the
    drawings pass alike: the body returns and leaves the rows as they were.
    So a run in which none of the directories exists returns with no row
    appended, and a collection none of whose directories exists can be
    dropped from the catalog without a change in the outcome. *)
Theorem UnknownFile_skips_missing_directory env repo dbs rows0 :
  (∀ db coll,
     fs env !! join (repo_path repo) [db; coll_id coll] = None →
     UnknownFileTable_backend_collection env repo dbs db coll rows0 = Returns tt rows0)
  ∧ (∀ coll,
     fs env !! join (repo_path repo) ["drawings"; coll_id coll] = None →
     UnknownFileTable_drawings_collection env repo dbs coll rows0 = Returns tt rows0)
  ∧ ((∀ db coll, coll ∈ collections repo →
        fs env !! join (repo_path repo) [db; coll_id coll] = None) →
     UnknownFileTable_populate env repo dbs rows0 = Returns tt rows0)
  ∧ (∀ before coll after,
     collections repo = before ++ coll :: after →
     (∀ db, fs env !! join (repo_path repo) [db; coll_id coll] = None) →
     UnknownFileTable_populate env repo dbs rows0
     = UnknownFileTable_populate env
         {| repo_path := repo_path repo; collections := before ++ after |} dbs rows0).
Proof.
  assert (∀ db coll rows1,
    fs env !! join (repo_path repo) [db; coll_id coll] = None →
    UnknownFileTable_backend_collection env repo dbs db coll rows1 = Returns tt rows1)
    as Hbackend.
  { intros db coll rows1 Hnone. unfold UnknownFileTable_backend_collection.
    by rewrite exists_false. }
  assert (∀ coll rows1,
    fs env !! join (repo_path repo) ["drawings"; coll_id coll] = None →
    UnknownFileTable_drawings_collection env repo dbs coll rows1 = Returns tt rows1)
    as Hdrawings.
  { intros coll rows1 Hnone. unfold UnknownFileTable_drawings_collection.
    by rewrite exists_false. }
  split_and!; [by auto|by auto|..].
  - intros Hnone. unfold UnknownFileTable_populate. rewrite bind_unfold.
    rewrite for_each_skip.
    + destruct (contains dbs "drawings"); [|done].
      apply for_each_skip. intros coll rows1 Hin. by apply Hdrawings, Hnone.
    + intros db rows1 _. destruct (bool_decide _); [done|].
      apply for_each_skip. intros coll rows2 Hin. by apply Hbackend, Hnone.
  - intros before coll after Hcolls Hnone.
    unfold UnknownFileTable_populate. rewrite !bind_unfold. simpl.
    rewrite Hcolls.
    assert (for_each (keys dbs) (λ db,
        if bool_decide (db = "drawings") then mret tt
        else for_each (before ++ coll :: after)
               (UnknownFileTable_backend_collection env repo dbs db)) rows0
      = for_each (keys dbs) (λ db,
        if bool_decide (db = "drawings") then mret tt
        else for_each (before ++ after)
               (UnknownFileTable_backend_collection env
                  {| repo_path := repo_path repo; collections := before ++ after |}
                  dbs db)) rows0) as ->.
    { apply for_each_ext. intros db rows1 _. destruct (bool_decide _); [done|].
      rewrite for_each_skip_one by (intros; by apply Hbackend). done. }
    destruct (for_each (keys dbs) _ rows0) as [[] rows1|]; [|done].
    destruct (contains dbs "drawings"); [|done].
    rewrite for_each_skip_one by (intros; by apply Hdrawings). done.
Qed.

Lemma UnknownFile_skips_missing_directory_witness :
  UnknownFileTable_backend_collection ex_env ex_repo ex_dbs "openscad" ex_hex []
  = Returns tt []
  ∧ UnknownFileTable_drawings_collection ex_bare_env ex_repo ex_dbs ex_hex []
    = Returns tt []
  ∧ UnknownFileTable_populate ex_bare_env ex_repo ex_dbs [] = Returns tt []
  ∧ UnknownFileTable_populate ex_bare_env ex_repo ex_dbs []
    = UnknownFileTable_populate ex_bare_env
        {| repo_path := repo_path ex_repo; collections := [] ++ [] |} ex_dbs [].
Proof.
  pose proof (UnknownFile_skips_missing_directory ex_env ex_repo ex_dbs [])
    as (Hbackend & _).
  pose proof (UnknownFile_skips_missing_directory ex_bare_env ex_repo ex_dbs [])
    as (_ & Hdrawings & Hnone & Hdrop).
  split_and!.
  - apply (Hbackend "openscad" ex_hex). reflexivity.
  - apply (Hdrawings ex_hex). reflexivity.
  - apply Hnone. reflexivity.
  - apply (Hdrop [] ex_hex []); reflexivity.
Defined.

Section pure_with.
Context {St : Type}.

Lemma pure_ret {A} (a : A) (Q : A → Prop) :
  Q a → pure_with (St:=St) (mret a) Q.
Proof. intros HQ s. left. by exists a. Qed.

Lemma pure_bind {A B} (m : Py St A) (f : A → Py St B) (Q : A → Prop) (R : B → Prop) :
  pure_with m Q → (∀ a, Q a → pure_with (f a) R) → pure_with (m ≫= f) R.
Proof.
  intros Hm Hf s. rewrite bind_unfold.
  destruct (Hm s) as [(a & -> & HQ)|(e & ->)]; [by apply Hf|].
  right. by exists e.
Qed.

Lemma pure_getitem {V} (d : gmap string V) k :
  pure_with (St:=St) (getitem d k) (λ v, d !! k = Some v).
Proof.
  intros s. unfold getitem. destruct (d !! k) as [v|]; [left|right]; by eexists.
Qed.

(** The invariant [J] of a loop with a loop-carried local tells which
    elements the loop has been through: it holds of no element at the
    start and of all of them at the end. *)
Lemma pure_for_fold {X A} (xs : list X) (body : X → A → Py St A)
    (J : list X → A → Prop) (acc0 : A) :
  J [] acc0 →
  (∀ done x acc, x ∈ xs → J done acc → pure_with (body x acc) (J (done ++ [x]))) →
  pure_with (for_fold xs acc0 body) (J xs).
Proof.
  intros Hinit Hstep.
  cut (∀ done acc, J done acc →
         pure_with (for_fold xs acc body) (J (done ++ xs))).
  { intros Hgen. by apply (Hgen []). }
  induction xs as [|x xs IH]; intros done acc HJ.
  { rewrite app_nil_r. by apply pure_ret. }
  simpl. eapply pure_bind.
  - apply Hstep; [by left|done].
  - intros acc' HJ'. rewrite (cons_middle x done xs), app_assoc.
    apply IH; [|done]. intros; apply Hstep; [by right|done].
Qed.
End pure_with.

Lemma remove_first_spec x l :
  x ∈ l → NoDup l →
  ∃ l', remove_first x l = Some l' ∧ NoDup l' ∧ l' ⊆ l ∧ x ∉ l'.
Proof.
  induction l as [|y l IH]; intros Hin Hnodup; [by apply elem_of_nil in Hin|].
  apply NoDup_cons in Hnodup as [Hy Hnodup]. simpl.
  destruct (decide (y = x)) as [->|Hne].
  - exists l. split_and!; [done..| |done]. intros z Hz. by right.
  - apply elem_of_cons in Hin as [->|Hin]; [done|].
    destruct (IH Hin Hnodup) as (l' & -> & Hnodup' & Hsub & Hnotin).
    exists (y :: l'). split_and!; [done| | |].
    + apply NoDup_cons. split; [|done]. intros Hy'. by apply Hy, Hsub.
    + intros z [->|Hz]%elem_of_cons; [by left|]. right. by apply Hsub.
    + intros [->|Hx]%elem_of_cons; [done|]. by apply Hnotin.
Qed.

(** [if x in files: files.remove(x)] on a listing without duplicates *)
Lemma guarded_remove {St} (files : list string) x :
  NoDup files →
  pure_with (St:=St)
    (if bool_decide (x ∈ files) then list_remove files x else mret files)
    (λ files', NoDup files' ∧ files' ⊆ files ∧ x ∉ files').
Proof.
  intros Hnodup. destruct (bool_decide (x ∈ files)) eqn:Hin.
  - apply bool_decide_eq_true in Hin.
    destruct (remove_first_spec x files Hin Hnodup) as (l' & Hrem & ?).
    intros s. left. exists l'. unfold list_remove. by rewrite Hrem.
  - apply bool_decide_eq_false in Hin. by apply pure_ret.
Qed.

Lemma pure_mono {St A} (m : Py St A) (Q Q' : A → Prop) :
  pure_with m Q → (∀ a, Q a → Q' a) → pure_with m Q'.
Proof.
  intros Hm HQ s. destruct (Hm s) as [(a & ? & ?)|?]; [left|by right].
  exists a. auto.
Qed.

(** A loop over the classes whose body takes the names of its class out of
    a listing without duplicates leaves none of the names of any class. *)
Lemma removal_loop {St} (classes : list BOLTSClass)
    (body : BOLTSClass → list string → Py St (list string))
    (names_of : BOLTSClass → list string) (files0 : list string) :
  NoDup files0 →
  (∀ cl files, NoDup files →
     pure_with (body cl files)
       (λ files', NoDup files' ∧ files' ⊆ files ∧ ∀ n, n ∈ names_of cl → n ∉ files')) →
  pure_with (for_fold classes files0 body)
    (λ files', files' ⊆ files0 ∧ ∀ cl n, cl ∈ classes → n ∈ names_of cl → n ∉ files').
Proof.
  intros Hnodup Hbody.
  pose (J := λ (done : list BOLTSClass) (files' : list string),
    NoDup files' ∧ files' ⊆ files0
    ∧ ∀ cl n, cl ∈ done → n ∈ names_of cl → n ∉ files').
  apply (pure_mono _ (J classes)); [|by intros files' (_ & ? & ?)].
  apply (pure_for_fold classes body J files0).
  { split_and!; [done..|]. intros cl n Hin. by apply elem_of_nil in Hin. }
  intros done cl files _ (Hnd & Hsub & Hgone).
  eapply pure_mono; [by apply Hbody|].
  intros files' (Hnd' & Hsub' & Hgone'). split_and!; [done|by etrans|].
  intros cl' n [Hin| ->%list_elem_of_singleton]%elem_of_app Hn.
  - intros Hn'. by eapply Hgone, Hsub'.
  - by apply Hgone'.
Qed.

Lemma backend_body_removes {St} (dbs : gmap string Database) db cl files :
  NoDup files →
  pure_with (St:=St)
    (database ← getitem dbs db;
     if negb (contains (getbase database) (cl_id cl)) then mret files else
     database ← getitem dbs db;
     base ← getitem (getbase database) (cl_id cl);
     if bool_decide (filename base ∈ files)
     then list_remove files (filename base)
     else mret files)
    (λ files', NoDup files' ∧ files' ⊆ files
               ∧ ∀ n, n ∈ registered_names dbs db cl → n ∉ files').
Proof.
  intros Hnodup. eapply pure_bind; [apply pure_getitem|].
  intros database Hdb. simpl in Hdb. unfold registered_names. rewrite Hdb.
  destruct (negb _) eqn:Hin.
  - rewrite contains_false in Hin. apply bool_decide_eq_true in Hin. rewrite Hin.
    apply pure_ret. split_and!; [done..|]. intros n Hn. by apply elem_of_nil in Hn.
  - eapply pure_bind; [apply pure_getitem|].
    intros database' Hdb'. simpl in Hdb'. rewrite Hdb in Hdb'. injection Hdb' as <-.
    eapply pure_bind; [apply pure_getitem|].
    intros base Hbase. simpl in Hbase. rewrite Hbase.
    eapply pure_mono; [by apply guarded_remove|].
    intros files' (? & ? & ?). split_and!; [done..|].
    by intros n ->%list_elem_of_singleton.
Qed.

Lemma drawings_body_removes {St} (dbs : gmap string Database) cl files :
  NoDup files →
  pure_with (St:=St)
    (drawings ← getitem dbs "drawings";
     if negb (contains (getbase drawings) (cl_id cl)) then mret files else
     drawings ← getitem dbs "drawings";
     drawing ← getitem (getbase drawings) (cl_id cl);
     files ← match get_png drawing with
             | Some png =>
                 if bool_decide (basename png ∈ files)
                 then list_remove files (basename png)
                 else mret files
             | None => mret files
             end;
     match get_svg drawing with
     | Some svg =>
         if bool_decide (basename svg ∈ files)
         then list_remove files (basename svg)
         else mret files
     | None => mret files
     end)
    (λ files', NoDup files' ∧ files' ⊆ files
               ∧ ∀ n, n ∈ drawing_names dbs cl → n ∉ files').
Proof.
  intros Hnodup. eapply pure_bind; [apply pure_getitem|].
  intros drawings Hdb. simpl in Hdb. unfold drawing_names. rewrite Hdb.
  destruct (negb _) eqn:Hin.
  - rewrite contains_false in Hin. apply bool_decide_eq_true in Hin. rewrite Hin.
    apply pure_ret. split_and!; [done..|]. intros n Hn. by apply elem_of_nil in Hn.
  - eapply pure_bind; [apply pure_getitem|].
    intros drawings' Hdb'. simpl in Hdb'. rewrite Hdb in Hdb'. injection Hdb' as <-.
    eapply pure_bind; [apply pure_getitem|].
    intros drawing Hdrawing. simpl in Hdrawing. rewrite Hdrawing.
    eapply (pure_bind _ _ (λ files1, NoDup files1 ∧ files1 ⊆ files
              ∧ ∀ n, n ∈ option_list (basename <$> get_png drawing) → n ∉ files1)).
    { destruct (get_png drawing) as [png|]; simpl.
      - eapply pure_mono; [by apply guarded_remove|].
        intros files1 (? & ? & ?). split_and!; [done..|].
        by intros n ->%list_elem_of_singleton.
      - apply pure_ret. split_and!; [done..|]. intros n Hn. by apply elem_of_nil in Hn. }
    intros files1 (Hnd1 & Hsub1 & Hpng).
    eapply (pure_mono _ (λ files2, NoDup files2 ∧ files2 ⊆ files1
              ∧ ∀ n, n ∈ option_list (basename <$> get_svg drawing) → n ∉ files2)).
    { destruct (get_svg drawing) as [svg|]; simpl.
      - eapply pure_mono; [by apply guarded_remove|].
        intros files2 (? & ? & ?). split_and!; [done..|].
        by intros n ->%list_elem_of_singleton.
      - apply pure_ret. split_and!; [done..|]. intros n Hn. by apply elem_of_nil in Hn. }
    intros files2 (Hnd2 & Hsub2 & Hsvg). split_and!; [done|by etrans|].
    intros n [Hn|Hn]%elem_of_app; [|by apply Hsvg].
    intros Hn'. by eapply Hpng, Hsub2.
Qed.

Lemma check_what_is_left_spec files path rows0 :
  check_what_is_left files path rows0
  = Returns tt (rows0 ++ (stray_row path <$> List.filter not_sidecar files)).
Proof.
  unfold check_what_is_left. rewrite <-for_each_append_if.
  apply for_each_ext. intros fname rows1 _. unfold not_sidecar.
  by destruct (bool_decide _).
Qed.

Section appends_only.
Context {Good : row → Prop}.

Lemma appends_ret {A} (a : A) : appends_only Good (mret a).
Proof. intros rows0. exists []. by rewrite app_nil_r. Qed.

Lemma appends_bind {A B} (m : Py (list row) A) (f : A → Py (list row) B) :
  appends_only Good m → (∀ a, appends_only Good (f a)) →
  appends_only Good (m ≫= f).
Proof.
  intros Hm Hf rows0. rewrite bind_unfold.
  destruct (Hm rows0) as (added & Hfinal & Hgood).
  destruct (m rows0) as [a rows1|e rows1]; simpl in Hfinal; subst rows1.
  - destruct (Hf a (rows0 ++ added)) as (added' & -> & Hgood').
    exists (added ++ added'). rewrite app_assoc. split; [done|].
    by apply Forall_app.
  - by exists added.
Qed.

Lemma appends_for_each {X} (xs : list X) (body : X → Py (list row) unit) :
  (∀ x, x ∈ xs → appends_only Good (body x)) →
  appends_only Good (for_each xs body).
Proof.
  induction xs as [|x xs IH]; intros Hbody; [apply appends_ret|].
  simpl. apply appends_bind; [apply Hbody; by left|].
  intros _. apply IH. intros; apply Hbody. by right.
Qed.
End appends_only.

Lemma appends_mono {A} (Good Good' : row → Prop) (m : Py (list row) A) :
  (∀ r, Good r → Good' r) → appends_only Good m → appends_only Good' m.
Proof.
  intros Himp Hm rows0. destruct (Hm rows0) as (added & ? & ?).
  exists added. split; [done|]. by eapply Forall_impl.
Qed.

(** What is left of a listing once the names of the classes are taken out
    and the sidecar files are passed over *)
Lemma left_over_rows (Good : row → Prop) path entries files :
  files ⊆ entries →
  (∀ fname, fname ∈ files → fname ∈ entries → (splitext fname).2 ≠ ".base" →
     Good [PStr fname; PStr path]) →
  Forall Good (stray_row path <$> List.filter not_sidecar files).
Proof.
  intros Hsub Hgood. apply Forall_fmap, Forall_forall. intros fname Hin.
  apply list_elem_of_In, filter_In in Hin as [Hin%list_elem_of_In Hext].
  apply Hgood; [done|by apply Hsub|].
  unfold not_sidecar in Hext. apply negb_true_iff, bool_decide_eq_false in Hext. done.
Qed.

Section listings.
Context (env : Env) (repo : Repository) (dbs : gmap string Database).

(** A directory lists each of its entries once. *)
Hypothesis listing_NoDup :
  ∀ path entries, fs env !! path = Some (Dir entries) → NoDup entries.

Lemma backend_collection_appends db coll :
  appends_only (backend_stray env repo dbs db coll)
    (UnknownFileTable_backend_collection env repo dbs db coll).
Proof using listing_NoDup.
  intros rows0. unfold UnknownFileTable_backend_collection.
  destruct (negb _); [by apply appends_ret|].
  rewrite bind_unfold. unfold listdir.
  destruct (fs env !! _) as [[entries|]|] eqn:Hdir;
    [|by (exists []; rewrite app_nil_r)..].
  simpl. rewrite bind_unfold.
  match goal with
  | |- context [for_fold ?xs ?acc ?body rows0] =>
      destruct (removal_loop xs body (registered_names dbs db) acc
                  (listing_NoDup _ _ Hdir)
                  (λ cl files Hnd, backend_body_removes dbs db cl files Hnd) rows0)
        as [(files & -> & Hsub & Hgone)|(e & ->)]
  end; [|by (exists []; rewrite app_nil_r)].
  rewrite check_what_is_left_spec. eexists. split; [done|].
  apply (left_over_rows _ _ entries); [done|].
  intros fname Hin Hentry Hext. exists fname, entries. split_and!; [done..|].
  intros cl database base Hcl Hdb Hbase ->.
  apply (Hgone cl (filename base)); [done| |done].
  unfold registered_names. rewrite Hdb, Hbase. by left.
Qed.

Lemma drawings_collection_appends coll :
  appends_only (drawings_stray env repo dbs coll)
    (UnknownFileTable_drawings_collection env repo dbs coll).
Proof using listing_NoDup.
  intros rows0. unfold UnknownFileTable_drawings_collection.
  destruct (negb _); [by apply appends_ret|].
  rewrite bind_unfold. unfold listdir.
  destruct (fs env !! _) as [[entries|]|] eqn:Hdir;
    [|by (exists []; rewrite app_nil_r)..].
  simpl. rewrite bind_unfold.
  match goal with
  | |- context [for_fold ?xs ?acc ?body rows0] =>
      destruct (removal_loop xs body (drawing_names dbs) acc
                  (listing_NoDup _ _ Hdir)
                  (λ cl files Hnd, drawings_body_removes dbs cl files Hnd) rows0)
        as [(files & -> & Hsub & Hgone)|(e & ->)]
  end; [|by (exists []; rewrite app_nil_r)].
  rewrite check_what_is_left_spec. eexists. split; [done|].
  apply (left_over_rows _ _ entries); [done|].
  intros fname Hin Hentry Hext. exists fname, entries. split_and!; [done..|].
  intros cl drawings drawing Hcl Hdb Hdrawing.
  assert (∀ n, n ∈ option_list (basename <$> get_png drawing)
                     ++ option_list (basename <$> get_svg drawing) → fname ≠ n)
    as Hnames.
  { intros n Hn ->. apply (Hgone cl n); [done| |done].
    unfold drawing_names. by rewrite Hdb, Hdrawing. }
  split.
  - intros png Hpng. apply Hnames. rewrite Hpng. apply elem_of_app. left. by left.
  - intros svg Hsvg. apply Hnames. rewrite Hsvg. apply elem_of_app. right. by left.
Qed.

(** C6.  On a file system whose directories list each entry once,
    [UnknownFileTable.populate] only appends rows, whether it returns or
    raises, and every row it appends is for a file of a directory
    [<repo path>/<backend>/<collection id>] whose extension is not the
    sidecar extension [.base] and whose name is not the BaseEntry filename
    registered in that backend for a class of that collection; in the
    pass over the drawings, whose name is not the basename of the PNG or
    SVG artifact of a class of that collection. *)
Theorem UnknownFile_never_flags_known_files rows0 :
  ∃ added,
    final_state (UnknownFileTable_populate env repo dbs rows0) = rows0 ++ added
    ∧ Forall (stray env repo dbs) added
    ∧ Forall (λ r, ∃ fname path, r = [PStr fname; PStr path]
                                  ∧ (splitext fname).2 ≠ ".base") added.
Proof using listing_NoDup.
  assert (appends_only (stray env repo dbs) (UnknownFileTable_populate env repo dbs))
    as Happends.
  { unfold UnknownFileTable_populate. apply appends_bind.
    - apply appends_for_each. intros db Hdb.
      destruct (bool_decide (db = "drawings")) eqn:Hne; [apply appends_ret|].
      apply bool_decide_eq_false in Hne.
      apply appends_for_each. intros coll Hcoll.
      eapply appends_mono; [|apply backend_collection_appends].
      intros r Hr. left. by exists db, coll.
    - intros _. destruct (contains dbs "drawings"); [|apply appends_ret].
      apply appends_for_each. intros coll Hcoll.
      eapply appends_mono; [|apply drawings_collection_appends].
      intros r Hr. right. by exists coll. }
  destruct (Happends rows0) as (added & Hfinal & Hstray).
  exists added. split_and!; [done..|].
  eapply Forall_impl; [done|].
  intros r [(db & coll & _ & _ & _ & fname & entries & -> & _ & _ & Hext & _)
           |(coll & _ & fname & entries & -> & _ & _ & Hext & _)]; eauto.
Qed.
End listings.

Lemma UnknownFile_never_flags_known_files_witness :
  (∀ path entries, fs ex_env !! path = Some (Dir entries) → NoDup entries)
  ∧ ∃ added,
      final_state (UnknownFileTable_populate ex_env ex_repo ex_dbs []) = [] ++ added
      ∧ Forall (stray ex_env ex_repo ex_dbs) added
      ∧ Forall (λ r, ∃ fname path, r = [PStr fname; PStr path]
                                    ∧ (splitext fname).2 ≠ ".base") added.
Proof.
  assert (∀ path entries, fs ex_env !! path = Some (Dir entries) → NoDup entries)
    as Hlistings.
  { intros path entries Hdir. simpl in Hdir.
    apply lookup_insert_Some in Hdir as [[_ [= <-]]|[_ Hdir]]; [compute_done|].
    apply lookup_singleton_Some in Hdir as [_ [= <-]]. compute_done. }
  split; [done|].
  apply (UnknownFile_never_flags_known_files ex_env ex_repo ex_dbs Hlistings []).
Defined.

(** ** Rendering *)

Section local_loops.
Context {St : Type}.
Implicit Types s : St.

Lemma for_fold_ext {X A} (xs : list X) (body body' : X → A → Py St A) acc s :
  (∀ x acc' s', x ∈ xs → body x acc' s' = body' x acc' s') →
  for_fold xs acc body s = for_fold xs acc body' s.
Proof.
  revert acc s. induction xs as [|x xs IH]; intros acc s Hext; [done|].
  simpl. rewrite !bind_unfold, Hext by left.
  destruct (body' x acc s); [|done]. apply IH. intros; apply Hext. by right.
Qed.

Lemma for_fold_app {X A} (xs ys : list X) (body : X → A → Py St A) acc s :
  for_fold (xs ++ ys) acc body s
  = (acc' ← for_fold xs acc body; for_fold ys acc' body) s.
Proof.
  revert acc s. induction xs as [|x xs IH]; intros acc s; [done|].
  simpl. rewrite !bind_unfold. destruct (body x acc s); [|done].
  rewrite IH. by rewrite bind_unfold.
Qed.

(** A loop that appends [g x] to a local list for each [x] *)
Lemma for_fold_collect {X B} (xs : list X) (g : X → B) (acc : list B) s :
  for_fold xs acc (λ x acc, mret (acc ++ [g x])) s = Returns (acc ++ (g <$> xs)) s.
Proof.
  revert acc. induction xs as [|x xs IH]; intros acc.
  { simpl. by rewrite app_nil_r. }
  simpl. rewrite bind_unfold. simpl. rewrite IH. by rewrite <-app_assoc.
Qed.

(** [for i in range(k): l[i] = f(i, l[i])] for [k] within the list *)
Lemma index_loop {A} (f : nat → A → A) (l : list A) (k : nat) s :
  k ≤ length l →
  for_fold (seq 0 k) l (λ i l, x ← list_get l i; list_set l i (f i x)) s
  = Returns (imap (λ i x, if decide (i < k) then f i x else x) l) s.
Proof.
  induction k as [|k IH]; intros Hk.
  - simpl. f_equal. apply list_eq. intros i. rewrite list_lookup_imap.
    by destruct (l !! i).
  - rewrite seq_S, for_fold_app, bind_unfold, IH by lia. simpl.
    destruct (lookup_lt_is_Some_2 l k) as [x Hx]; [lia|].
    rewrite !bind_unfold. unfold list_get.
    rewrite list_lookup_imap, Hx. simpl.
    rewrite decide_False by lia. unfold list_set.
    rewrite decide_True by (rewrite length_imap; lia).
    simpl. f_equal. apply list_eq. intros i.
    rewrite list_lookup_insert, !list_lookup_imap, length_imap.
    destruct (decide (k = i ∧ k < length l)) as [[<- _]|Hne].
    + rewrite Hx. simpl. by rewrite decide_True by lia.
    + destruct (l !! i) as [y|] eqn:Hy; [|done]. simpl.
      apply lookup_lt_Some in Hy.
      destruct (decide (i < k)), (decide (i < S k)); try done; lia.
Qed.

Lemma for_map_fmap {X Y B} (h : X → Y) (xs : list X) (f : Y → Py St B) s :
  for_map (h <$> xs) f s = for_map xs (f ∘ h) s.
Proof.
  revert s. induction xs as [|x xs IH]; intros s; [done|].
  simpl. rewrite !bind_unfold. destruct (f (h x) s); [|done].
  rewrite !bind_unfold. by rewrite IH.
Qed.

(** [(g(l1[i], l2[i]) for i in range(n))] over two lists of length [n] *)
Lemma for_map_zip {A B C} (g : A → B → C) (l1 : list A) (l2 : list B) s :
  length l1 = length l2 →
  for_map (seq 0 (length l2)) (λ i,
    a ← list_get l1 i; b ← list_get l2 i; mret (g a b)) s
  = Returns (zip_with g l1 l2) s.
Proof.
  revert l2. induction l1 as [|a l1 IH]; intros [|b l2] Hlen; try done.
  simpl. rewrite bind_unfold. simpl.
  rewrite <-fmap_S_seq, bind_unfold, for_map_fmap.
  injection Hlen as Hlen. specialize (IH l2 Hlen).
  unfold compose. simpl.
  replace (for_map (seq 0 (length l2)) _ s) with (Returns (St:=St) (zip_with g l1 l2) s).
  done.
Qed.
End local_loops.

Lemma length_append (s1 s2 : string) :
  String.length (s1 +:+ s2) = String.length s1 + String.length s2.
Proof.
  induction s1 as [|c s1 IH]; [done|].
  change (S (String.length (s1 +:+ s2)) = S (String.length s1 + String.length s2)).
  by rewrite IH.
Qed.

Lemma length_str_mul (s : string) (n : nat) :
  String.length (str_mul s n) = n * String.length s.
Proof. induction n as [|n IH]; [done|]. simpl. rewrite length_append, IH. lia. Qed.

(** A field that is wide enough holds its value and is as long as it is
    wide. *)
Lemma length_fmt_left (w : nat) (v : string) :
  String.length v ≤ w → String.length (fmt_left w v) = w.
Proof.
  intros Hle. unfold fmt_left. rewrite length_append, length_str_mul. cbn. lia.
Qed.

Lemma length_concat_cells (cells : list string) :
  String.length (String.concat "" cells) = sum_list (String.length <$> cells).
Proof.
  induction cells as [|c [|c' cells] IH]; [done|cbn; lia|].
  change (String.concat "" (c :: c' :: cells))
    with (c +:+ "" +:+ String.concat "" (c' :: cells)).
  rewrite !length_append, IH. cbn. lia.
Qed.

Lemma widen_lookup (width : list nat) (r : row) (i : nat) :
  widen width r !! i
  = (λ w, match r !! i with
          | Some cell => String.length (str cell) `max` w
          | None => w
          end) <$> width !! i.
Proof. unfold widen. by rewrite list_lookup_imap. Qed.

Lemma length_widen width r : length (widen width r) = length width.
Proof. unfold widen. by rewrite length_imap. Qed.

(** Measuring the rows one after the other leaves in each column the
    greatest length met there. *)
Lemma foldl_widen_lookup rows width i :
  foldl widen width rows !! i = (λ w, w `max` max_list (column i rows)) <$> width !! i.
Proof.
  revert width. induction rows as [|r rows IH]; intros width.
  - simpl. destruct (width !! i); simpl; [f_equal; lia|done].
  - simpl. rewrite IH, widen_lookup. unfold column. simpl.
    destruct (width !! i) as [w|]; [|done]. simpl.
    destruct (r !! i) as [cell|]; simpl; f_equal; lia.
Qed.

Section measure.
Context {St : Type}.
Implicit Types s : St.

(** The loop over the cells of one row *)
Lemma measure_row (r : row) (width : list nat) s :
  length r ≤ length width →
  for_fold (seq 0 (length r)) width (λ i width,
    cell ← list_get r i;
    w ← list_get width i;
    list_set width i (String.length (str cell) `max` w)) s
  = Returns (widen width r) s.
Proof.
  intros Hlen.
  rewrite (for_fold_ext _ _ (λ i width,
    w ← list_get width i;
    list_set width i (match r !! i with
                      | Some cell => String.length (str cell) `max` w
                      | None => w
                      end))).
  - rewrite index_loop by done. f_equal. unfold widen. apply imap_ext.
    intros i w Hw. simpl. destruct (decide (i < length r)) as [|Hge]; [done|].
    by rewrite lookup_ge_None_2 by lia.
  - intros i width' s' [_ Hi]%elem_of_seq. rewrite bind_unfold. unfold list_get at 1.
    destruct (lookup_lt_is_Some_2 r i) as [cell ->]; [lia|]. done.
Qed.

Lemma measure_rows (rows : list row) (width : list nat) s :
  Forall (λ r, length r ≤ length width) rows →
  for_fold rows width (λ row width,
    for_fold (seq 0 (length row)) width (λ i width,
      cell ← list_get row i;
      w ← list_get width i;
      list_set width i (String.length (str cell) `max` w))) s
  = Returns (foldl widen width rows) s.
Proof.
  revert width. induction rows as [|r rows IH]; intros width Hfit; [done|].
  apply Forall_cons in Hfit as [Hr Hfit].
  simpl. rewrite bind_unfold, measure_row by done.
  apply IH. eapply Forall_impl; [done|]. intros r'. by rewrite length_widen.
Qed.

(** [for i in range(len(width)): width[i] += 2] *)
Lemma add_some_more_space (width : list nat) s :
  for_fold (seq 0 (length width)) width (λ i width,
    w ← list_get width i;
    list_set width i (w + 2)) s
  = Returns ((λ w, w + 2) <$> width) s.
Proof.
  rewrite (index_loop (λ _ w, w + 2)) by done. f_equal.
  apply list_eq. intros i. rewrite list_lookup_imap, list_lookup_fmap.
  destruct (width !! i) as [w|] eqn:Hw; [|done]. simpl.
  apply lookup_lt_Some in Hw. by rewrite decide_True by done.
Qed.
End measure.

(** The widths that [print_table] arrives at *)
Lemma measured_widths (headers : list string) (rows : list row) :
  (λ w, w + 2) <$> foldl widen (String.length <$> headers) rows
  = column_widths headers rows.
Proof.
  apply list_eq. intros i. unfold column_widths.
  rewrite list_lookup_fmap, foldl_widen_lookup, list_lookup_fmap, list_lookup_imap.
  by destruct (headers !! i).
Qed.

Lemma length_column_widths headers rows :
  length (column_widths headers rows) = length headers.
Proof. unfold column_widths. by rewrite length_imap. Qed.

Lemma column_widths_lookup headers rows i :
  column_widths headers rows !! i = column_width rows i <$> headers !! i.
Proof. unfold column_widths. by rewrite list_lookup_imap. Qed.

(** A cell of a row is no longer than the column it stands in is wide. *)
Lemma cell_fits headers rows (r : row) i cell w :
  r ∈ rows → r !! i = Some cell → column_widths headers rows !! i = Some w →
  String.length (str cell) ≤ w.
Proof.
  intros Hr Hcell Hw. rewrite column_widths_lookup in Hw.
  destruct (headers !! i) as [h|]; [|done]. injection Hw as <-.
  unfold column_width.
  assert (String.length (str cell) ≤ max_list (column i rows)); [|lia].
  apply max_list_elem_of_le, list_elem_of_omap. exists r. split; [done|].
  by rewrite Hcell.
Qed.

Lemma header_cells_lengths headers rows :
  String.length <$> zip_with fmt_left (column_widths headers rows) headers
  = column_widths headers rows.
Proof.
  apply list_eq. intros i.
  rewrite list_lookup_fmap, lookup_zip_with, column_widths_lookup.
  destruct (headers !! i) as [h|]; [|done]. simpl. f_equal.
  apply length_fmt_left. unfold column_width. lia.
Qed.

Lemma row_cells_lengths headers rows (r : row) :
  r ∈ rows → length r ≤ length headers →
  String.length <$>
    ((λ wv, fmt_left wv.1 (str wv.2)) <$> zip (column_widths headers rows) r)
  = take (length r) (column_widths headers rows).
Proof.
  intros Hr Hlen. apply list_eq. intros i.
  rewrite !list_lookup_fmap, lookup_zip_with.
  destruct (decide (i < length r)) as [Hlt|Hge].
  - rewrite lookup_take_lt by done.
    destruct (lookup_lt_is_Some_2 r i Hlt) as [cell Hcell].
    destruct (lookup_lt_is_Some_2 (column_widths headers rows) i) as [w Hw].
    { rewrite length_column_widths. lia. }
    rewrite Hw, Hcell. simpl. f_equal.
    apply length_fmt_left. by eapply cell_fits.
  - rewrite lookup_take_ge by lia. rewrite (lookup_ge_None_2 r) by lia.
    by destruct (_ !! i).
Qed.

(** C5.  [print_table] returns the empty string for a table without rows.
    For a table with rows, none of them longer than the header list, it
    returns the block of the title, its underline, the description, the
    header line, the separator line and one line per row, joined by
    newlines.  The width of a column is two more than the greatest of the
    length of its header label and the lengths of [str] of the cells the
    rows have in it; every header cell is as long as its column is wide, so
    the header line is as long as the widths add up to; and the cells of
    every data line are as long as the columns they stand in are wide, so
    they start where the header cells do. *)
Theorem print_table_layout {St} (self : table) (s : St) :
  (rows self = [] → print_table self s = Returns "" s)
  ∧ (rows self ≠ [] →
     Forall (λ r, length r ≤ length (headers self)) (rows self) →
     let width := imap (λ i h,
       (String.length h `max` max_list (column i (rows self))) + 2) (headers self) in
     let header_cells := zip_with fmt_left width (headers self) in
     let row_cells (r : row) := (λ wv, fmt_left wv.1 (str wv.2)) <$> zip width r in
     print_table self s
     = Returns (String.concat nl
         ([title self; str_mul "-" (String.length (title self)) +:+ nl;
           description self +:+ nl;
           String.concat "" header_cells;
           String.concat "" ((λ w, str_mul "-" w) <$> width)]
          ++ ((λ r, String.concat "" (row_cells r)) <$> rows self)
          ++ [nl])) s
     ∧ String.length <$> header_cells = width
     ∧ String.length (String.concat "" header_cells) = sum_list width
     ∧ ∀ r, r ∈ rows self → String.length <$> row_cells r = take (length r) width).
Proof.
  split.
  - intros Hrows. unfold print_table. by rewrite Hrows.
  - intros Hrows Hfit.
    change (imap _ (headers self)) with (column_widths (headers self) (rows self)).
    simpl. split_and!.
    + unfold print_table. rewrite bool_decide_eq_false_2 by (by destruct (rows self)).
      rewrite bind_unfold, (for_fold_collect _ String.length []). simpl.
      rewrite bind_unfold, measure_rows by (by rewrite length_fmap).
      rewrite bind_unfold, add_some_more_space, measured_widths.
      rewrite bind_unfold, for_map_zip by (by rewrite length_column_widths).
      rewrite bind_unfold, for_fold_collect. simpl.
      done.
    + apply header_cells_lengths.
    + by rewrite length_concat_cells, header_cells_lengths.
    + intros r Hr. apply row_cells_lengths; [done|].
      by apply (proj1 (Forall_forall _ _) Hfit).
Qed.

Lemma print_table_layout_witness :
  print_table MissingDrawingTable_init tt = Returns "" tt
  ∧ let width := imap (λ i h,
      (String.length h `max` max_list (column i (rows ex_table))) + 2)
      (headers ex_table) in
    let header_cells := zip_with fmt_left width (headers ex_table) in
    let row_cells (r : row) := (λ wv, fmt_left wv.1 (str wv.2)) <$> zip width r in
    print_table ex_table tt
    = Returns (String.concat nl
        ([title ex_table; str_mul "-" (String.length (title ex_table)) +:+ nl;
          description ex_table +:+ nl;
          String.concat "" header_cells;
          String.concat "" ((λ w, str_mul "-" w) <$> width)]
         ++ ((λ r, String.concat "" (row_cells r)) <$> rows ex_table)
         ++ [nl])) tt
    ∧ String.length <$> header_cells = width
    ∧ String.length (String.concat "" header_cells) = sum_list width
    ∧ ∀ r, r ∈ rows ex_table → String.length <$> row_cells r = take (length r) width.
Proof.
  split.
  - apply (print_table_layout MissingDrawingTable_init tt). reflexivity.
  - apply (print_table_layout ex_table tt).
    + discriminate.
    + repeat constructor.
Defined.

(** The block rendered for [ex_table]: columns of width 10, 12 and 11 *)
Example print_table_sample :
  print_table ex_table tt
  = Returns (String.concat nl
      ["Missing drawings";
       "----------------";
       "";
       "Some classes do not have associated drawings.";
       "";
       "Class id  Collection  Standards  ";
       "---------------------------------";
       "hex       DIN933      ";
       "";
       ""]) tt.
Proof. reflexivity. Qed.

(** A row with more cells than there are headers makes [print_table] raise
    at [width[i]]. *)
Example print_table_row_too_long :
  print_table {| klass := ErrorTable; title := "t"; description := "d";
                 rows := [[PStr "a"; PStr "b"]]; headers := ["h"] |} tt
  = Raises IndexError tt.
Proof. reflexivity. Qed.

(** ** The rows of the seven checks fit their headers *)

Section appends_more.
Context {Good : row → Prop}.

Lemma appends_unchanged {A} (m : Py (list row) A) :
  (∀ rows0, final_state (m rows0) = rows0) → appends_only Good m.
Proof. intros Hm rows0. exists []. by rewrite Hm, app_nil_r. Qed.

Lemma appends_getitem {V} (d : gmap string V) k : appends_only Good (getitem d k).
Proof. apply appends_unchanged. intros rows0. unfold getitem. by destruct (d !! k). Qed.

Lemma appends_read_local {A} name (var : option A) :
  appends_only Good (read_local name var).
Proof. apply appends_unchanged. intros rows0. by destruct var. Qed.

Lemma appends_listdir fs path : appends_only Good (listdir fs path).
Proof.
  apply appends_unchanged. intros rows0. unfold listdir.
  by destruct (fs !! path) as [[]|].
Qed.

Lemma appends_list_remove l x : appends_only Good (list_remove l x).
Proof.
  apply appends_unchanged. intros rows0. unfold list_remove.
  by destruct (remove_first x l).
Qed.

Lemma appends_rows_append r : Good r → appends_only Good (rows_append r).
Proof. intros Hr rows0. exists [r]. split; [done|]. by apply Forall_singleton. Qed.

Lemma appends_for_fold {X A} (xs : list X) (acc : A) (body : X → A → Py (list row) A) :
  (∀ x acc', x ∈ xs → appends_only Good (body x acc')) →
  appends_only Good (for_fold xs acc body).
Proof.
  revert acc. induction xs as [|x xs IH]; intros acc Hbody; [apply appends_ret|].
  simpl. apply appends_bind; [apply Hbody; by left|].
  intros acc'. apply IH. intros; apply Hbody. by right.
Qed.
End appends_more.

(** Takes a method body apart, down to the rows it appends *)
Ltac appends_only_tac :=
  repeat first
    [ apply appends_ret
    | apply appends_getitem
    | apply appends_read_local
    | apply appends_listdir
    | apply appends_list_remove
    | apply appends_rows_append; simpl; lia
    | apply appends_for_each; intros
    | apply appends_for_fold; intros
    | apply appends_bind; [|intros]
    | match goal with
      | |- appends_only _ (if ?c then _ else _) => destruct c
      | |- appends_only _ (match ?o with Some _ => _ | None => _ end) => destruct o
      | |- appends_only _ (let '(_, _) := ?p in _) => destruct p
      end ].

(** Whatever the inputs, and whether [populate] returns or raises, no row
    of a check of the engine has more cells than the check has headers: the
    tables that the engine hands to [print_table] meet its assumption. *)
Lemma checks_rows_fit_headers env repo dbs name check :
  CheckerExporter_checks !! name = Some check →
  let populated := final_state (call_populate env repo dbs check) in
  headers populated = headers check
  ∧ Forall (λ r, length r ≤ length (headers populated)) (rows populated).
Proof.
  intros Hcheck.
  assert (∀ self : table,
    rows self = [] →
    appends_only (λ r, length r ≤ length (headers self))
      (default ErrorTable_populate (own_populate env (klass self)) repo dbs) →
    let populated := final_state (call_populate env repo dbs self) in
    headers populated = headers self
    ∧ Forall (λ r, length r ≤ length (headers populated)) (rows populated)) as Hfit.
  { intros [k t d r h] Hrows Happ. simpl in *. subst r.
    unfold call_populate, on_rows. simpl.
    destruct (Happ []) as (added & Hfinal & Hgood).
    destruct (default ErrorTable_populate (own_populate env k) repo dbs []);
      simpl in *; subst; by split. }
  unfold CheckerExporter_checks in Hcheck.
  repeat (apply lookup_insert_Some in Hcheck as [[_ <-]|[_ Hcheck]];
    [apply Hfit; [done|]; simpl|]); [..|by rewrite lookup_empty in Hcheck].
  - unfold UnknownFileTable_populate, UnknownFileTable_backend_collection,
      UnknownFileTable_drawings_collection, check_what_is_left.
    appends_only_tac.
  - unfold UnsupportedLicenseTable_populate. appends_only_tac.
  - unfold MissingSVGSourceTable_populate. appends_only_tac.
  - unfold MissingDrawingTable_populate. appends_only_tac.
  - unfold MissingCommonParametersTable_populate. appends_only_tac.
  - unfold ErrorTable_populate. appends_only_tac.
  - unfold MissingBaseTable_populate. appends_only_tac.
Qed.

(** ** The engine *)

(** What holds of the state before a loop and is kept by every run of its
    body, returning or raising, holds of the state the loop leaves. *)
Lemma for_each_invariant {St X} (P : St → Prop) (xs : list X)
    (body : X → Py St unit) (s : St) :
  P s →
  (∀ x s', x ∈ xs → P s' → P (final_state (body x s'))) →
  P (final_state (for_each xs body s)).
Proof.
  revert s. induction xs as [|x xs IH]; intros s Hs Hbody; [done|].
  simpl. rewrite bind_unfold.
  pose proof (Hbody x s (list_elem_of_here _ _) Hs) as Hx.
  destruct (body x s) as [[] s'|e s']; [|done].
  apply IH; [done|]. intros; apply Hbody; [by right|done].
Qed.

(** Whatever the catalog and the databases, and whether the construction of
    the engine returns or one of the checks raises, the check registered as
    [unknownclass] is the table that [UnknownClassTable.__init__] made: it
    holds no row. *)
Lemma CheckerExporter_unknownclass_empty env repo dbs :
  final_state (CheckerExporter_init env repo dbs) !! "unknownclass"
  = Some UnknownClassTable_init.
Proof.
  unfold CheckerExporter_init.
  apply (for_each_invariant (λ checks, checks !! "unknownclass" = Some _)); [done|].
  intros [name check] checks Hin%elem_of_map_to_list Hkept.
  destruct (decide (name = "unknownclass")) as [->|Hne].
  - assert (check = UnknownClassTable_init) as ->.
    { assert (CheckerExporter_checks !! "unknownclass" = Some UnknownClassTable_init)
        as Hreg by done.
      congruence. }
    simpl. by rewrite lookup_insert_eq.
  - destruct (call_populate env repo dbs check); simpl;
      by rewrite lookup_insert_ne.
Qed.

(** The engine on the sample catalog: [A] has no common parameters, and no
    drawing either. *)
Example CheckerExporter_sample :
  let checks := final_state (CheckerExporter_init ex_env ex_repo ex_dbs) in
  get_table <$> checks !! "missingcommonparameters"
  = Some [[PStr "A"; PStr "hex"; PStr "DIN933"]]
  ∧ get_table <$> checks !! "missingdrawing" = Some [[PStr "hex"; PStr "DIN933"]]
  ∧ get_table <$> checks !! "unknownfile"
    = Some [[PStr "stray.txt"; PStr "/bolts/freecad/hex"];
            [PStr "old.svg"; PStr "/bolts/drawings/hex"]].
Proof. by vm_compute. Qed.

(** * Further properties of the checks *)

(** ** Missing backends *)

Lemma getitem_missing {St V} (d : gmap string V) k (s : St) :
  d !! k = None → getitem d k s = Raises (KeyError k) s.
Proof. unfold getitem. by intros ->. Qed.

Lemma elem_of_List_filter {A} (f : A → bool) (l : list A) x :
  x ∈ List.filter f l ↔ x ∈ l ∧ f x = true.
Proof. by rewrite !list_elem_of_In, filter_In. Qed.

Lemma NoDup_List_filter {A} (f : A → bool) (l : list A) :
  NoDup l → NoDup (List.filter f l).
Proof.
  induction 1 as [|x l Hx Hl IH]; simpl; [constructor|].
  destruct (f x); [|done]. constructor; [|done].
  rewrite elem_of_List_filter. by intros [? _].
Qed.

(** X1.  [MissingSVGSourceTable.populate] never looks at the catalog.
    Without a drawings database it raises [KeyError] for ["drawings"] and
    leaves the rows alone; with one, it returns, and the rows it appends are
    the rows (filename, class id) of the entries of the database whose SVG
    accessor returns [None], one row for each and no two alike. *)
Theorem MissingSVGSource_reports_entries_without_svg repo dbs rows0 :
  match dbs !! "drawings" with
  | None =>
      MissingSVGSourceTable_populate repo dbs rows0
      = Raises (KeyError "drawings") rows0
  | Some drawings =>
      ∃ added,
        MissingSVGSourceTable_populate repo dbs rows0 = Returns tt (rows0 ++ added)
        ∧ NoDup added
        ∧ ∀ r, r ∈ added ↔
            ∃ id draw, getbase drawings !! id = Some draw
                       ∧ get_svg draw = None
                       ∧ r = [PStr (filename draw); PStr id]
  end.
Proof.
  unfold MissingSVGSourceTable_populate. rewrite bind_unfold.
  destruct (dbs !! "drawings") as [drawings|] eqn:Hd.
  - rewrite (getitem_Some _ _ _ _ Hd).
    exists (MissingSVGSource_row <$>
              List.filter lacks_svg (map_to_list (getbase drawings))).
    split_and!.
    + rewrite <-for_each_append_if. apply for_each_ext.
      by intros [id draw] rows1 _.
    + apply NoDup_fmap_2_strong.
      * intros [id draw] [id' draw'] Hin Hin' [= _ <-].
        apply list_elem_of_In, filter_In in Hin as [Hin%list_elem_of_In _].
        apply list_elem_of_In, filter_In in Hin' as [Hin'%list_elem_of_In _].
        apply elem_of_map_to_list in Hin, Hin'. congruence.
      * apply NoDup_List_filter, NoDup_map_to_list.
    + intros r. rewrite list_elem_of_fmap. split.
      * intros ([id draw] & -> & Hin).
        apply list_elem_of_In, filter_In in Hin as [Hin%list_elem_of_In Hsvg].
        apply elem_of_map_to_list in Hin. apply bool_decide_eq_true in Hsvg.
        by exists id, draw.
      * intros (id & draw & Hdraw & Hsvg & ->). exists (id, draw). split; [done|].
        apply list_elem_of_In, filter_In. split.
        -- by apply list_elem_of_In, elem_of_map_to_list.
        -- by apply bool_decide_eq_true.
  - by rewrite (getitem_missing _ _ _ Hd).
Qed.

(** X2.  Without a drawings database, [MissingDrawingTable.populate] raises
    [KeyError] for ["drawings"] at the first class of the catalog, no row
    appended; on a catalog without any class it returns, for it looks the
    database up once per class. *)
Theorem MissingDrawing_without_drawings_database repo dbs rows0 :
  dbs !! "drawings" = None →
  MissingDrawingTable_populate repo dbs rows0
  = match class_occurrences repo with
    | [] => Returns tt rows0
    | _ :: _ => Raises (KeyError "drawings") rows0
    end.
Proof.
  intros Hd. unfold MissingDrawingTable_populate.
  rewrite (for_each_classes repo (λ coll cl, _ ≫= _)).
  destruct (class_occurrences repo) as [|[coll cl] occs]; [done|].
  simpl. by rewrite !bind_unfold, (getitem_missing _ _ _ Hd).
Qed.

Lemma MissingDrawing_without_drawings_database_witness :
  MissingDrawingTable_populate ex_repo ex_dbs_geometry []
  = Raises (KeyError "drawings") []
  ∧ MissingDrawingTable_populate ex_empty_repo ex_dbs_geometry [] = Returns tt [].
Proof.
  split.
  - apply (MissingDrawing_without_drawings_database ex_repo ex_dbs_geometry []).
    reflexivity.
  - apply (MissingDrawing_without_drawings_database ex_empty_repo ex_dbs_geometry []).
    reflexivity.
Defined.

(** X3.  [MissingBaseTable.populate] looks both geometry databases up for
    every class, FreeCAD first.  On a catalog with a class it raises
    [KeyError] for ["freecad"] when that database is missing, and for
    ["openscad"] when only that one is; no row is appended.  On a catalog
    without any class it returns whatever the databases. *)
Theorem MissingBase_without_geometry_database repo dbs rows0 :
  MissingBaseTable_populate repo dbs rows0
  = match class_occurrences repo, dbs !! "freecad", dbs !! "openscad" with
    | [], _, _ => Returns tt rows0
    | _ :: _, None, _ => Raises (KeyError "freecad") rows0
    | _ :: _, Some _, None => Raises (KeyError "openscad") rows0
    | _ :: _, Some freecad, Some openscad =>
        Returns tt (rows0 ++ (MissingBase_row freecad openscad <$>
          List.filter (absent_from_either freecad openscad) (class_occurrences repo)))
    end.
Proof.
  destruct (class_occurrences repo) as [|[coll cl] occs] eqn:Hocc.
  { unfold MissingBaseTable_populate.
    rewrite (for_each_classes repo (λ coll cl, _ ≫= _)). by rewrite Hocc. }
  destruct (dbs !! "freecad") as [freecad|] eqn:Hf.
  - destruct (dbs !! "openscad") as [openscad|] eqn:Ho.
    + rewrite <-Hocc. apply populate_by_class. intros [coll' cl'] rows1. simpl.
      rewrite bind_unfold, (getitem_Some _ _ _ _ Hf).
      rewrite bind_unfold, (getitem_Some _ _ _ _ Ho).
      unfold absent_from_either, MissingBase_row. simpl.
      by rewrite andb_comm, negb_andb, !contains_false, bool_decide_or.
    + unfold MissingBaseTable_populate.
      rewrite (for_each_classes repo (λ coll cl, _ ≫= _)), Hocc. simpl.
      rewrite !bind_unfold, (getitem_Some _ _ _ _ Hf). simpl.
      by rewrite bind_unfold, (getitem_missing _ _ _ Ho).
  - unfold MissingBaseTable_populate.
    rewrite (for_each_classes repo (λ coll cl, _ ≫= _)), Hocc. simpl.
    by rewrite !bind_unfold, (getitem_missing _ _ _ Hf).
Qed.

(** X4.  However [MissingBaseTable.populate] ends, the rows it has appended
    have five cells, the class id, the collection id, the standard and the
    two geometry flags, and in no row are both flags true. *)
Theorem MissingBase_rows_never_both_true repo dbs rows0 :
  ∃ added,
    final_state (MissingBaseTable_populate repo dbs rows0) = rows0 ++ added
    ∧ Forall MissingBase_shaped added.
Proof.
  revert rows0. change (appends_only MissingBase_shaped (MissingBaseTable_populate repo dbs)).
  unfold MissingBaseTable_populate.
  apply appends_for_each. intros coll _. apply appends_for_each. intros cl _.
  apply appends_bind; [apply appends_getitem|]. intros freecad.
  apply appends_bind; [apply appends_getitem|]. intros openscad.
  destruct (negb _) eqn:Hflag; [|apply appends_ret].
  apply appends_rows_append. do 5 eexists. split; [done|].
  intros [Hf Ho]. rewrite Hf, Ho in Hflag. done.
Qed.

(** ** Licenses: when the method raises *)

(** A loop that raises does so in the body of one of its elements. *)
Lemma for_each_Raises_inv {St X} (xs : list X) (body : X → Py St unit) s e s' :
  for_each xs body s = Raises e s' →
  ∃ x s1, x ∈ xs ∧ body x s1 = Raises e s'.
Proof.
  revert s. induction xs as [|x xs IH]; intros s Hraise; [done|].
  simpl in Hraise. rewrite bind_unfold in Hraise.
  destruct (body x s) as [[] s1|e1 s1] eqn:Hx.
  - destruct (IH _ Hraise) as (y & s2 & Hy & Hbody).
    exists y, s2. split; [by right|done].
  - injection Hraise as -> ->. exists x, s. split; [by left|done].
Qed.

(** The second loop of [UnsupportedLicenseTable.populate] never reads
    [coll] when every base passes. *)
Lemma bases_loop_all_pass env dbs (coll_var : option Collection) rows0 :
  all_bases_pass env dbs →
  for_each (keys dbs) (λ db,
    database ← getitem dbs db;
    for_each (iteritems (getbase database)) (λ '(id, base),
      if negb (check_license env (license_name base) (license_url base)) then
        coll ← read_local "coll" coll_var;
        rows_append ([PStr db] ++ [PStr id] ++ [PStr (license_name base)]
                     ++ [PStr (license_url base)]
                     ++ [PStr (String.concat "," (authors coll))])
      else mret tt)) rows0
  = Returns tt rows0.
Proof.
  intros Hpass. rewrite (for_each_keys dbs (λ db database, for_each _ _)).
  apply for_each_skip. intros [db database] rows1 Hdb%elem_of_map_to_list. simpl.
  apply for_each_skip. intros [id base] rows2 Hbase%elem_of_map_to_list.
  by rewrite (Hpass db database id base).
Qed.

(** X5.  When every base of every backend passes the validator,
    [UnsupportedLicenseTable.populate] returns with the rows of the
    collections that fail it and no other row, and it does so on a catalog
    without collections too: the unbound [coll] is never read. *)
Theorem UnsupportedLicense_returns_when_bases_pass env repo dbs rows0 :
  all_bases_pass env dbs →
  UnsupportedLicenseTable_populate env repo dbs rows0
  = Returns tt (rows0 ++ (Collection_license_row <$>
      List.filter (unsupported_collection env) (collections repo))).
Proof.
  intros Hpass. unfold UnsupportedLicenseTable_populate.
  rewrite bind_unfold. simpl. rewrite collections_loop.
  by apply bases_loop_all_pass.
Qed.

Lemma UnsupportedLicense_returns_when_bases_pass_witness :
  UnsupportedLicenseTable_populate ex_env ex_empty_repo ex_dbs_openscad []
  = Returns tt ([] ++ (Collection_license_row <$>
      List.filter (unsupported_collection ex_env) (collections ex_empty_repo))).
Proof.
  apply (UnsupportedLicense_returns_when_bases_pass ex_env ex_empty_repo
           ex_dbs_openscad []).
  intros db database id base Hdb Hbase. unfold ex_dbs_openscad in Hdb.
  apply lookup_singleton_Some in Hdb as [_ <-]. simpl in Hbase.
  by rewrite lookup_empty in Hbase.
Defined.

(** X6.  The one way for [UnsupportedLicenseTable.populate] to raise: the
    exception is [UnboundLocalError] for [coll], the catalog has no
    collection, some base of some backend fails the validator, and the rows
    are as they were before the call. *)
Theorem UnsupportedLicense_raises_only_unbound env repo dbs rows0 e rows1 :
  UnsupportedLicenseTable_populate env repo dbs rows0 = Raises e rows1 →
  e = UnboundLocalError "coll"
  ∧ rows1 = rows0
  ∧ collections repo = []
  ∧ ∃ db database id base,
      dbs !! db = Some database ∧ getbase database !! id = Some base
      ∧ check_license env (license_name base) (license_url base) = false.
Proof.
  intros Hraise.
  destruct (last (collections repo)) as [who|] eqn:Hlast.
  { by rewrite (UnsupportedLicenseTable_populate_spec _ _ _ who) in Hraise. }
  apply last_None in Hlast.
  unfold UnsupportedLicenseTable_populate in Hraise.
  rewrite Hlast, bind_unfold in Hraise. simpl in Hraise.
  rewrite bases_loop_unbound in Hraise.
  assert (∀ entry (rows2 : list row),
    (if unsupported_base env entry
     then raise (UnboundLocalError "coll") else mret tt) rows2 = Returns tt rows2
    ∨ (if unsupported_base env entry
       then raise (UnboundLocalError "coll") else mret tt) rows2
      = Raises (UnboundLocalError "coll") rows2) as Hentry.
  { intros entry rows2. destruct (unsupported_base env entry); [by right|by left]. }
  match type of Hraise with
  | for_each ?xs ?body rows0 = _ =>
      destruct (for_each_skip_or_raise xs body (UnboundLocalError "coll") rows0)
        as [Hret|Hunbound]
  end.
  { intros kv rows2 _. apply for_each_skip_or_raise. intros; apply Hentry. }
  { by rewrite Hret in Hraise. }
  rewrite Hunbound in Hraise. injection Hraise as <- <-.
  split_and!; [done..|].
  apply for_each_Raises_inv in Hunbound
    as ([db database] & rows2 & Hdb%elem_of_map_to_list & Hinner).
  apply for_each_Raises_inv in Hinner
    as ([id base] & rows3 & Hbase%elem_of_map_to_list & Hbody).
  exists db, database, id, base. split_and!; [done..|].
  unfold unsupported_base in Hbody. simpl in Hbody.
  by destruct (check_license env _ _).
Qed.

Lemma UnsupportedLicense_raises_only_unbound_witness :
  UnboundLocalError "coll" = UnboundLocalError "coll"
  ∧ [] = @nil row
  ∧ collections ex_empty_repo = []
  ∧ ∃ db database id base,
      ex_dbs !! db = Some database ∧ getbase database !! id = Some base
      ∧ check_license ex_env (license_name base) (license_url base) = false.
Proof.
  apply (UnsupportedLicense_raises_only_unbound ex_env ex_empty_repo ex_dbs []).
  reflexivity.
Defined.

(** ** Stray files: the rows in full, and the exceptions *)

Lemma List_filter_all {A} (f : A → bool) (l : list A) :
  (∀ x, x ∈ l → f x = true) → List.filter f l = l.
Proof.
  induction l as [|x l IH]; intros Hall; [done|].
  simpl. rewrite Hall by left. f_equal. apply IH. intros; apply Hall. by right.
Qed.

Lemma unknown_entries_nil entries : unknown_entries [] entries = entries.
Proof.
  apply List_filter_all. intros f _. apply bool_decide_eq_true. apply not_elem_of_nil.
Qed.

Lemma unknown_entries_app known1 known2 entries :
  unknown_entries known2 (unknown_entries known1 entries)
  = unknown_entries (known1 ++ known2) entries.
Proof.
  unfold unknown_entries. induction entries as [|f entries IH]; [done|]. simpl.
  destruct (decide (f ∈ known1)) as [Hin|Hnotin].
  - rewrite (bool_decide_eq_false_2 (f ∉ known1)) by auto.
    rewrite (bool_decide_eq_false_2 (f ∉ known1 ++ known2)); [done|].
    intros Hnot. apply Hnot, elem_of_app. by left.
  - rewrite (bool_decide_eq_true_2 (f ∉ known1)) by done. simpl.
    destruct (decide (f ∈ known2)) as [Hin2|Hnotin2].
    + rewrite (bool_decide_eq_false_2 (f ∉ known2)) by auto.
      rewrite (bool_decide_eq_false_2 (f ∉ known1 ++ known2)); [done|].
      intros Hnot. apply Hnot, elem_of_app. by right.
    + rewrite (bool_decide_eq_true_2 (f ∉ known2)) by done.
      rewrite (bool_decide_eq_true_2 (f ∉ known1 ++ known2)); [by rewrite IH|].
      by intros [?|?]%elem_of_app.
Qed.

Lemma elem_of_unknown_entries known entries f :
  f ∈ unknown_entries known entries ↔ f ∈ entries ∧ f ∉ known.
Proof.
  unfold unknown_entries. rewrite elem_of_List_filter.
  by rewrite bool_decide_eq_true.
Qed.

(** On a listing without duplicates, [l.remove(x)] takes out all there is
    of [x]. *)
Lemma remove_first_NoDup x l :
  NoDup l → x ∈ l → remove_first x l = Some (unknown_entries [x] l).
Proof.
  unfold unknown_entries.
  induction l as [|y l IH]; intros Hnodup Hin; [by apply elem_of_nil in Hin|].
  apply NoDup_cons in Hnodup as [Hy Hnodup]. simpl.
  destruct (decide (y = x)) as [->|Hne].
  - rewrite bool_decide_eq_false_2 by (intros Hnot; apply Hnot; by left).
    f_equal. symmetry. apply List_filter_all. intros z Hz.
    apply bool_decide_eq_true. intros ->%list_elem_of_singleton. done.
  - apply elem_of_cons in Hin as [->|Hin]; [done|].
    rewrite IH by done. simpl.
    by rewrite bool_decide_eq_true_2 by (by intros ->%list_elem_of_singleton).
Qed.

Lemma guarded_remove_exact {St} (files : list string) x (s : St) :
  NoDup files →
  (if bool_decide (x ∈ files) then list_remove files x else mret files) s
  = Returns (unknown_entries [x] files) s.
Proof.
  intros Hnodup. destruct (bool_decide (x ∈ files)) eqn:Hin.
  - apply bool_decide_eq_true in Hin. unfold list_remove.
    by rewrite remove_first_NoDup.
  - apply bool_decide_eq_false in Hin. unfold unknown_entries.
    rewrite List_filter_all; [done|]. intros z Hz.
    apply bool_decide_eq_true. by intros ->%list_elem_of_singleton.
Qed.

Lemma removal_loop_exact {St} (classes : list BOLTSClass)
    (body : BOLTSClass → list string → Py St (list string))
    (names_of : BOLTSClass → list string) (files0 : list string) (s : St) :
  NoDup files0 →
  (∀ cl files s', NoDup files →
     body cl files s' = Returns (unknown_entries (names_of cl) files) s') →
  for_fold classes files0 body s
  = Returns (unknown_entries (classes ≫= names_of) files0) s.
Proof.
  intros Hnodup Hbody. revert files0 Hnodup.
  induction classes as [|cl classes IH]; intros files0 Hnodup.
  { simpl. by rewrite unknown_entries_nil. }
  simpl. rewrite bind_unfold, Hbody by done.
  rewrite IH by (by apply NoDup_List_filter).
  by rewrite unknown_entries_app.
Qed.

Lemma backend_body_exact {St} (dbs : gmap string Database) db database cl files
    (s : St) :
  dbs !! db = Some database →
  NoDup files →
  (database ← getitem dbs db;
   if negb (contains (getbase database) (cl_id cl)) then mret files else
   database ← getitem dbs db;
   base ← getitem (getbase database) (cl_id cl);
   if bool_decide (filename base ∈ files)
   then list_remove files (filename base)
   else mret files) s
  = Returns (unknown_entries (registered_names dbs db cl) files) s.
Proof.
  intros Hdb Hnodup. unfold registered_names. rewrite Hdb.
  rewrite bind_unfold, (getitem_Some _ _ _ _ Hdb), contains_false.
  destruct (getbase database !! cl_id cl) as [base|] eqn:Hbase.
  - rewrite bool_decide_eq_false_2 by done.
    rewrite bind_unfold, (getitem_Some _ _ _ _ Hdb).
    rewrite bind_unfold, (getitem_Some _ _ _ _ Hbase).
    by apply guarded_remove_exact.
  - rewrite bool_decide_eq_true_2 by done. by rewrite unknown_entries_nil.
Qed.

Lemma drawings_body_exact {St} (dbs : gmap string Database) drawings cl files
    (s : St) :
  dbs !! "drawings" = Some drawings →
  NoDup files →
  (drawings ← getitem dbs "drawings";
   if negb (contains (getbase drawings) (cl_id cl)) then mret files else
   drawings ← getitem dbs "drawings";
   drawing ← getitem (getbase drawings) (cl_id cl);
   files ← match get_png drawing with
           | Some png =>
               if bool_decide (basename png ∈ files)
               then list_remove files (basename png)
               else mret files
           | None => mret files
           end;
   match get_svg drawing with
   | Some svg =>
       if bool_decide (basename svg ∈ files)
       then list_remove files (basename svg)
       else mret files
   | None => mret files
   end) s
  = Returns (unknown_entries (drawing_names dbs cl) files) s.
Proof.
  intros Hdb Hnodup. unfold drawing_names. rewrite Hdb.
  rewrite bind_unfold, (getitem_Some _ _ _ _ Hdb), contains_false.
  destruct (getbase drawings !! cl_id cl) as [drawing|] eqn:Hdrawing.
  - rewrite bool_decide_eq_false_2 by done.
    rewrite bind_unfold, (getitem_Some _ _ _ _ Hdb).
    rewrite bind_unfold, (getitem_Some _ _ _ _ Hdrawing).
    rewrite bind_unfold, <-unknown_entries_app.
    assert (∀ (name : option string) (files' : list string), NoDup files' →
      match name with
      | Some n =>
          if bool_decide (basename n ∈ files')
          then list_remove files' (basename n)
          else mret files'
      | None => mret files'
      end s
      = Returns (unknown_entries (option_list (basename <$> name)) files') s)
      as Hname.
    { intros [n|] files' Hnd; simpl.
      - by apply guarded_remove_exact.
      - by rewrite unknown_entries_nil. }
    rewrite Hname by done. apply Hname. by apply NoDup_List_filter.
  - rewrite bool_decide_eq_true_2 by done. by rewrite unknown_entries_nil.
Qed.

Section exact_listings.
Context (env : Env) (repo : Repository) (dbs : gmap string Database).

Hypothesis listing_NoDup :
  ∀ path entries, fs env !! path = Some (Dir entries) → NoDup entries.

(** What the loop body does for one collection, by what its directory is *)
Lemma backend_collection_outcome db database coll rows0 :
  dbs !! db = Some database →
  UnknownFileTable_backend_collection env repo dbs db coll rows0
  = match fs env !! join (repo_path repo) [db; coll_id coll] with
    | Some NotDir => Raises (OSError (join (repo_path repo) [db; coll_id coll])) rows0
    | _ => Returns tt (rows0 ++ backend_contribution env repo dbs db coll)
    end.
Proof using listing_NoDup.
  intros Hdb. unfold UnknownFileTable_backend_collection, backend_contribution.
  unfold exists_, contains, listdir.
  remember (join (repo_path repo) [db; coll_id coll]) as path eqn:Hpath.
  destruct (fs env !! path) as [[entries|]|] eqn:Hdir.
  - rewrite bool_decide_eq_true_2 by eauto. simpl. rewrite !bind_unfold. simpl.
    rewrite bind_unfold.
    rewrite (removal_loop_exact _ _ (registered_names dbs db))
      by eauto using backend_body_exact.
    by rewrite check_what_is_left_spec.
  - rewrite bool_decide_eq_true_2 by eauto. done.
  - rewrite bool_decide_eq_false_2 by (by intros [??]). simpl.
    by rewrite app_nil_r.
Qed.

Lemma drawings_collection_outcome drawings coll rows0 :
  dbs !! "drawings" = Some drawings →
  UnknownFileTable_drawings_collection env repo dbs coll rows0
  = match fs env !! join (repo_path repo) ["drawings"; coll_id coll] with
    | Some NotDir =>
        Raises (OSError (join (repo_path repo) ["drawings"; coll_id coll])) rows0
    | _ => Returns tt (rows0 ++ drawings_contribution env repo dbs coll)
    end.
Proof using listing_NoDup.
  intros Hdb. unfold UnknownFileTable_drawings_collection, drawings_contribution.
  unfold exists_, contains, listdir.
  remember (join (repo_path repo) ["drawings"; coll_id coll]) as path eqn:Hpath.
  destruct (fs env !! path) as [[entries|]|] eqn:Hdir.
  - rewrite bool_decide_eq_true_2 by eauto. simpl. rewrite !bind_unfold. simpl.
    rewrite bind_unfold.
    rewrite (removal_loop_exact _ _ (drawing_names dbs))
      by eauto using drawings_body_exact.
    by rewrite check_what_is_left_spec.
  - rewrite bool_decide_eq_true_2 by eauto. done.
  - rewrite bool_decide_eq_false_2 by (by intros [??]). simpl.
    by rewrite app_nil_r.
Qed.
End exact_listings.

Lemma elem_of_keys {V} (d : gmap string V) k : k ∈ keys d ↔ is_Some (d !! k).
Proof.
  unfold keys. rewrite list_elem_of_fmap. split.
  - intros ([k' v] & -> & Hin%elem_of_map_to_list). by exists v.
  - intros [v Hv]. exists (k, v). split; [done|]. by apply elem_of_map_to_list.
Qed.

Section stray_files.
Context (env : Env) (repo : Repository) (dbs : gmap string Database).

(** A directory lists each of its entries once. *)
Hypothesis listing_NoDup :
  ∀ path entries, fs env !! path = Some (Dir entries) → NoDup entries.

(** X7.  On a file system whose directories list each entry once, the one
    way for [UnknownFileTable.populate] to raise is the [OSError] of
    [os.listdir] for the directory of a collection of the catalog and a
    backend of the database set that exists without being a directory; it
    raises no [KeyError] for a backend or a class, and no [ValueError] for a
    file that [files.remove] does not find. *)
Theorem UnknownFile_raises_only_OSError rows0 e rows1 :
  UnknownFileTable_populate env repo dbs rows0 = Raises e rows1 →
  ∃ db coll,
    db ∈ keys dbs ∧ coll ∈ collections repo
    ∧ e = OSError (join (repo_path repo) [db; coll_id coll])
    ∧ fs env !! join (repo_path repo) [db; coll_id coll] = Some NotDir.
Proof using listing_NoDup.
  unfold UnknownFileTable_populate. rewrite bind_unfold. intros Hraise.
  destruct (for_each (keys dbs) _ rows0) as [[] rows2|e' rows2] eqn:Hfirst.
  - destruct (contains dbs "drawings") eqn:Hdrawings; [|done].
    apply bool_decide_eq_true in Hdrawings. destruct Hdrawings as [drawings Hdb].
    apply for_each_Raises_inv in Hraise as (coll & rows3 & Hcoll & Hbody).
    rewrite (drawings_collection_outcome _ _ _ listing_NoDup drawings) in Hbody by done.
    exists "drawings", coll. split; [by apply elem_of_keys|]. split; [done|].
    destruct (fs env !! _) as [[entries|]|]; try done.
    by injection Hbody as <- _.
  - injection Hraise as <- <-.
    apply for_each_Raises_inv in Hfirst as (db & rows3 & Hkey & Hbody).
    destruct (bool_decide (db = "drawings")); [done|].
    apply for_each_Raises_inv in Hbody as (coll & rows4 & Hcoll & Hbody).
    pose proof Hkey as [database Hdb]%elem_of_keys.
    rewrite (backend_collection_outcome _ _ _ listing_NoDup db database) in Hbody by done.
    exists db, coll. split_and!; [done..| |].
    + destruct (fs env !! _) as [[entries|]|]; try done. by injection Hbody as <- _.
    + destruct (fs env !! _) as [[entries|]|]; done.
Qed.

(** Every path of the file system that exists is a directory. *)
Hypothesis all_listable : ∀ path, fs env !! path ≠ Some NotDir.

Lemma backend_collection_returns db coll rows0 :
  db ∈ keys dbs →
  UnknownFileTable_backend_collection env repo dbs db coll rows0
  = Returns tt (rows0 ++ backend_contribution env repo dbs db coll).
Proof using listing_NoDup all_listable.
  intros [database Hdb]%elem_of_keys.
  rewrite (backend_collection_outcome _ _ _ listing_NoDup db database) by done.
  pose proof (all_listable (join (repo_path repo) [db; coll_id coll])).
  by destruct (fs env !! _) as [[entries|]|].
Qed.

Lemma drawings_collection_returns coll rows0 :
  "drawings" ∈ keys dbs →
  UnknownFileTable_drawings_collection env repo dbs coll rows0
  = Returns tt (rows0 ++ drawings_contribution env repo dbs coll).
Proof using listing_NoDup all_listable.
  intros [drawings Hdb]%elem_of_keys.
  rewrite (drawings_collection_outcome _ _ _ listing_NoDup drawings) by done.
  pose proof (all_listable (join (repo_path repo) ["drawings"; coll_id coll])).
  by destruct (fs env !! _) as [[entries|]|].
Qed.

(** X8.  On a file system whose directories list each entry once and on
    which every path that exists is a directory,
    [UnknownFileTable.populate] returns, and the rows it appends are known
    in full: backend by backend and collection by collection, one row for
    each entry of the directory, in the order of the listing, that is no
    sidecar file and no name registered for a class of the collection.  So
    every such file is reported, in the pass over a backend and in the pass
    over the drawings. *)
Theorem UnknownFile_reports_every_stray_file rows0 :
  UnknownFileTable_populate env repo dbs rows0
  = Returns tt (rows0 ++ UnknownFile_rows env repo dbs)
  ∧ (∀ db coll entries fname,
       db ∈ keys dbs → db ≠ "drawings" → coll ∈ collections repo →
       fs env !! join (repo_path repo) [db; coll_id coll] = Some (Dir entries) →
       fname ∈ entries →
       (splitext fname).2 ≠ ".base" →
       (∀ cl database base,
          cl ∈ classes_by_ids coll → dbs !! db = Some database →
          getbase database !! cl_id cl = Some base → fname ≠ filename base) →
       [PStr fname; PStr (join (repo_path repo) [db; coll_id coll])]
       ∈ UnknownFile_rows env repo dbs)
  ∧ (∀ drawings coll entries fname,
       dbs !! "drawings" = Some drawings → coll ∈ collections repo →
       fs env !! join (repo_path repo) ["drawings"; coll_id coll] = Some (Dir entries) →
       fname ∈ entries →
       (splitext fname).2 ≠ ".base" →
       (∀ cl drawing,
          cl ∈ classes_by_ids coll → getbase drawings !! cl_id cl = Some drawing →
          (∀ png, get_png drawing = Some png → fname ≠ basename png)
          ∧ (∀ svg, get_svg drawing = Some svg → fname ≠ basename svg)) →
       [PStr fname; PStr (join (repo_path repo) ["drawings"; coll_id coll])]
       ∈ UnknownFile_rows env repo dbs).
Proof using listing_NoDup all_listable.
  split_and!.
  - unfold UnknownFileTable_populate, UnknownFile_rows. rewrite bind_unfold.
    rewrite (for_each_appends _ _ (λ db,
      if bool_decide (db = "drawings") then []
      else collections repo ≫= backend_contribution env repo dbs db)).
    + destruct (contains dbs "drawings") eqn:Hdrawings.
      * apply bool_decide_eq_true, elem_of_keys in Hdrawings.
        rewrite (for_each_appends _ _ (drawings_contribution env repo dbs)).
        -- by rewrite <-app_assoc.
        -- intros coll rows1 _. by apply drawings_collection_returns.
      * simpl. by rewrite app_nil_r.
    + intros db rows1 Hdb. destruct (bool_decide (db = "drawings")).
      * simpl. by rewrite app_nil_r.
      * apply for_each_appends. intros coll rows2 _.
        by apply backend_collection_returns.
  - intros db coll entries fname Hdb Hne Hcoll Hdir Hin Hext Hunknown.
    unfold UnknownFile_rows. apply elem_of_app. left.
    apply list_elem_of_bind. exists db. split; [|done].
    rewrite bool_decide_eq_false_2 by done.
    apply list_elem_of_bind. exists coll. split; [|done].
    unfold backend_contribution. rewrite Hdir.
    apply list_elem_of_fmap. exists fname. split; [done|].
    apply elem_of_List_filter. split.
    + apply elem_of_unknown_entries. split; [done|].
      intros (cl & Hname & Hcl)%list_elem_of_bind.
      unfold registered_names in Hname.
      destruct (dbs !! db) as [database|] eqn:Hdatabase;
        [|by apply elem_of_nil in Hname].
      destruct (getbase database !! cl_id cl) as [base|] eqn:Hbase;
        [|by apply elem_of_nil in Hname].
      apply list_elem_of_singleton in Hname. by eapply Hunknown.
    + unfold not_sidecar. by rewrite bool_decide_eq_false_2.
  - intros drawings coll entries fname Hdb Hcoll Hdir Hin Hext Hunknown.
    unfold UnknownFile_rows. apply elem_of_app. right.
    unfold contains. rewrite bool_decide_eq_true_2 by eauto.
    apply list_elem_of_bind. exists coll. split; [|done].
    unfold drawings_contribution. rewrite Hdir.
    apply list_elem_of_fmap. exists fname. split; [done|].
    apply elem_of_List_filter. split.
    + apply elem_of_unknown_entries. split; [done|].
      intros (cl & Hname & Hcl)%list_elem_of_bind.
      unfold drawing_names in Hname. rewrite Hdb in Hname.
      destruct (getbase drawings !! cl_id cl) as [drawing|] eqn:Hdrawing;
        [|by apply elem_of_nil in Hname].
      destruct (Hunknown cl drawing Hcl Hdrawing) as [Hpng Hsvg].
      apply elem_of_app in Hname as [Hname|Hname].
      * destruct (get_png drawing) as [png|]; [|by apply elem_of_nil in Hname].
        apply list_elem_of_singleton in Hname. by eapply Hpng.
      * destruct (get_svg drawing) as [svg|]; [|by apply elem_of_nil in Hname].
        apply list_elem_of_singleton in Hname. by eapply Hsvg.
    + unfold not_sidecar. by rewrite bool_decide_eq_false_2.
Qed.
End stray_files.

Lemma UnknownFile_raises_only_OSError_witness :
  ∃ db coll,
    db ∈ keys ex_dbs ∧ coll ∈ collections ex_repo
    ∧ OSError "/bolts/freecad/hex" = OSError (join (repo_path ex_repo) [db; coll_id coll])
    ∧ fs ex_env_plain_file !! join (repo_path ex_repo) [db; coll_id coll] = Some NotDir.
Proof.
  apply (UnknownFile_raises_only_OSError ex_env_plain_file ex_repo ex_dbs) with (rows0 := [])
    (rows1 := []).
  - intros path entries Hdir. simpl in Hdir.
    by apply lookup_singleton_Some in Hdir as [_ ?].
  - reflexivity.
Defined.

Lemma UnknownFile_reports_every_stray_file_witness :
  UnknownFileTable_populate ex_env ex_repo ex_dbs []
  = Returns tt ([] ++ UnknownFile_rows ex_env ex_repo ex_dbs)
  ∧ [PStr "stray.txt"; PStr (join (repo_path ex_repo) ["freecad"; coll_id ex_hex])]
    ∈ UnknownFile_rows ex_env ex_repo ex_dbs.
Proof.
  assert (∀ path entries, fs ex_env !! path = Some (Dir entries) → NoDup entries)
    as Hlistings.
  { intros path entries Hdir. simpl in Hdir.
    apply lookup_insert_Some in Hdir as [[_ [= <-]]|[_ Hdir]]; [compute_done|].
    apply lookup_singleton_Some in Hdir as [_ [= <-]]. compute_done. }
  assert (∀ path, fs ex_env !! path ≠ Some NotDir) as Hlistable.
  { intros path Hdir. simpl in Hdir.
    apply lookup_insert_Some in Hdir as [[_ ?]|[_ Hdir]]; [done|].
    by apply lookup_singleton_Some in Hdir as [_ ?]. }
  destruct (UnknownFile_reports_every_stray_file ex_env ex_repo ex_dbs
              Hlistings Hlistable []) as (Hrun & Hbackend & _).
  split; [exact Hrun|].
  apply (Hbackend "freecad" ex_hex ["hex.py"; "hex.base"; "stray.txt"] "stray.txt").
  - apply elem_of_keys. by eexists.
  - done.
  - apply list_elem_of_here.
  - reflexivity.
  - compute_done.
  - by vm_compute.
  - intros cl database base Hcl Hdb Hbase Heq.
    assert (ex_dbs !! "freecad" = Some ex_freecad) as Hfreecad by reflexivity.
    rewrite Hfreecad in Hdb. injection Hdb as <-. simpl in Hbase.
    apply lookup_singleton_Some in Hbase as [_ <-]. discriminate Heq.
Defined.

(** ** What [populate] keeps *)

Ltac only_appends_tac :=
  repeat first
    [ apply appends_ret
    | apply appends_getitem
    | apply appends_read_local
    | apply appends_listdir
    | apply appends_list_remove
    | apply appends_rows_append; exact I
    | apply appends_for_each; intros
    | apply appends_for_fold; intros
    | apply appends_bind; [|intros]
    | match goal with
      | |- appends_only _ (if ?c then _ else _) => destruct c
      | |- appends_only _ (match ?o with Some _ => _ | None => _ end) => destruct o
      | |- appends_only _ (let '(_, _) := ?p in _) => destruct p
      end ].

(** X9.  A call to [populate] on a table of any of the classes, whether it
    returns or raises, leaves the class, the title, the description and the
    headers of the table as they were, and the rows it held in place at the
    head of its rows: a check only ever appends. *)
Theorem populate_only_appends env repo dbs self :
  let populated := final_state (call_populate env repo dbs self) in
  klass populated = klass self
  ∧ title populated = title self
  ∧ description populated = description self
  ∧ headers populated = headers self
  ∧ ∃ added, rows populated = rows self ++ added.
Proof.
  assert (appends_only (λ _, True)
            (default ErrorTable_populate (own_populate env (klass self)) repo dbs))
    as Happ.
  { destruct (klass self); simpl.
    - unfold ErrorTable_populate. only_appends_tac.
    - unfold MissingBaseTable_populate. only_appends_tac.
    - unfold ErrorTable_populate. only_appends_tac.
    - unfold MissingCommonParametersTable_populate. only_appends_tac.
    - unfold MissingDrawingTable_populate. only_appends_tac.
    - unfold MissingSVGSourceTable_populate. only_appends_tac.
    - unfold UnsupportedLicenseTable_populate. only_appends_tac.
    - unfold UnknownFileTable_populate, UnknownFileTable_backend_collection,
        UnknownFileTable_drawings_collection, check_what_is_left.
      only_appends_tac. }
  destruct (Happ (rows self)) as (added & Hfinal & _).
  unfold call_populate, on_rows.
  destruct (default ErrorTable_populate (own_populate env (klass self)) repo dbs
              (rows self)); simpl in *; subst; eauto 10.
Qed.

(** ** The engine runs every check *)

Section registry_loop.
Context (env : Env) (repo : Repository) (dbs : gmap string Database).

(** The loop of [CheckerExporter.__init__] over a part of the registry:
    when it returns, every check of that part has returned and stands
    populated under its name, and the other names are as they were. *)
Lemma registry_loop_Returns (part : list (string * table))
    (checks checks' : gmap string table) :
  NoDup part.*1 →
  for_each part (λ '(name, check) checks,
    match call_populate env repo dbs check with
    | Returns _ check' => Returns tt (<[name := check']> checks)
    | Raises e check' => Raises e (<[name := check']> checks)
    end) checks = Returns tt checks' →
  (∀ name check, (name, check) ∈ part →
     ∃ check', call_populate env repo dbs check = Returns tt check'
               ∧ checks' !! name = Some check')
  ∧ (∀ name, name ∉ part.*1 → checks' !! name = checks !! name).
Proof.
  revert checks. induction part as [|[name check] part IH]; intros checks Hnodup Hrun.
  { injection Hrun as <-. split; [|done]. intros ?? Hin. by apply elem_of_nil in Hin. }
  rewrite fmap_cons in Hnodup. apply NoDup_cons in Hnodup as [Hname Hnodup].
  simpl in Hrun. rewrite bind_unfold in Hrun.
  destruct (call_populate env repo dbs check) as [[] check'|e check'] eqn:Hcheck;
    [|done].
  destruct (IH _ Hnodup Hrun) as [Hpart Hrest]. split.
  - intros name2 check2 [[= -> ->]|Hin]%elem_of_cons.
    + exists check'. split; [done|].
      by rewrite (Hrest name Hname), lookup_insert_eq.
    + by apply Hpart.
  - intros name2 [Hne Hnotin]%not_elem_of_cons.
    by rewrite (Hrest name2 Hnotin), lookup_insert_ne.
Qed.

(** When every check of the part returns, so does the loop. *)
Lemma registry_loop_returns (part : list (string * table))
    (checks : gmap string table) :
  (∀ name check, (name, check) ∈ part →
     ∃ check', call_populate env repo dbs check = Returns tt check') →
  ∃ checks',
    for_each part (λ '(name, check) checks,
      match call_populate env repo dbs check with
      | Returns _ check' => Returns tt (<[name := check']> checks)
      | Raises e check' => Raises e (<[name := check']> checks)
      end) checks = Returns tt checks'.
Proof.
  revert checks. induction part as [|[name check] part IH]; intros checks Hall.
  { by eexists. }
  destruct (Hall name check) as [check' Hcheck]; [by left|].
  simpl. rewrite bind_unfold, Hcheck. apply IH.
  intros name2 check2 Hin. apply (Hall name2 check2). by right.
Qed.
End registry_loop.

(** X10.  [CheckerExporter.__init__] returns exactly when the [populate] of
    each of the seven checks does.  The registry it then holds has the seven
    names and no other, each bound to its check as populated.  When the
    construction raises, the exception is the one that the [populate] of one
    of the seven checks raised. *)
Theorem CheckerExporter_runs_every_check env repo dbs :
  match CheckerExporter_init env repo dbs with
  | Returns _ checks =>
      ∀ name,
        match CheckerExporter_checks !! name with
        | Some check =>
            ∃ check', call_populate env repo dbs check = Returns tt check'
                      ∧ checks !! name = Some check'
        | None => checks !! name = None
        end
  | Raises e _ =>
      ∃ name check check',
        CheckerExporter_checks !! name = Some check
        ∧ call_populate env repo dbs check = Raises e check'
  end
  ∧ ((∀ name check, CheckerExporter_checks !! name = Some check →
        ∃ check', call_populate env repo dbs check = Returns tt check') →
     ∃ checks, CheckerExporter_init env repo dbs = Returns tt checks).
Proof.
  split.
  - destruct (CheckerExporter_init env repo dbs) as [[] checks|e checks] eqn:Hinit.
    + unfold CheckerExporter_init in Hinit.
      apply registry_loop_Returns in Hinit as [Hpart Hrest];
        [|apply NoDup_fst_map_to_list].
      intros name. destruct (CheckerExporter_checks !! name) as [check|] eqn:Hname.
      * apply Hpart. by apply elem_of_map_to_list.
      * rewrite Hrest; [done|].
        intros ([name' check] & -> & Hin%elem_of_map_to_list)%list_elem_of_fmap.
        simpl in Hname. congruence.
    + unfold CheckerExporter_init in Hinit.
      apply for_each_Raises_inv in Hinit
        as ([name check] & checks1 & Hin%elem_of_map_to_list & Hbody).
      destruct (call_populate env repo dbs check) as [[] check'|e' check'] eqn:Hcheck;
        [done|].
      injection Hbody as <- _. by exists name, check, check'.
  - intros Hall. apply registry_loop_returns.
    intros name check Hin%elem_of_map_to_list. by eapply Hall.
Qed.

Lemma CheckerExporter_runs_every_check_witness :
  ∃ checks, CheckerExporter_init ex_env ex_repo ex_dbs = Returns tt checks.
Proof.
  apply (CheckerExporter_runs_every_check ex_env ex_repo ex_dbs).
  intros name check Hcheck. unfold CheckerExporter_checks in Hcheck.
  cbv zeta in Hcheck.
  repeat (apply lookup_insert_Some in Hcheck as [[_ <-]|[_ Hcheck]];
    [eexists; reflexivity|]).
  by rewrite lookup_empty in Hcheck.
Defined.

(** X11.  Without a drawings database the construction of the engine
    raises, whatever the catalog and the other databases, for
    [MissingSVGSourceTable.populate] is among the checks it runs. *)
Theorem CheckerExporter_needs_drawings_database env repo dbs :
  dbs !! "drawings" = None →
  ∃ e checks, CheckerExporter_init env repo dbs = Raises e checks.
Proof.
  intros Hd.
  destruct (CheckerExporter_init env repo dbs) as [[] checks|e checks] eqn:Hinit;
    [|by eauto].
  unfold CheckerExporter_init in Hinit.
  apply registry_loop_Returns in Hinit as [Hpart _]; [|apply NoDup_fst_map_to_list].
  destruct (Hpart "missingsvgsource" MissingSVGSourceTable_init)
    as (check' & Hcheck & _).
  { by apply elem_of_map_to_list. }
  assert (call_populate env repo dbs MissingSVGSourceTable_init
          = Raises (KeyError "drawings") MissingSVGSourceTable_init) as Hraise.
  { unfold call_populate, on_rows. simpl. unfold MissingSVGSourceTable_populate.
    by rewrite bind_unfold, (getitem_missing _ _ _ Hd). }
  congruence.
Qed.

Lemma CheckerExporter_needs_drawings_database_witness :
  ∃ e checks, CheckerExporter_init ex_env ex_repo ex_dbs_geometry = Raises e checks.
Proof.
  apply (CheckerExporter_needs_drawings_database ex_env ex_repo ex_dbs_geometry).
  reflexivity.
Defined.

(** ** Rendering: when it returns, when it raises, and the shape of the block *)

(** The block that [print_table] returns for a table with rows that fit its
    headers *)
Lemma print_table_block {St} (self : table) (s : St) :
  rows self ≠ [] →
  Forall (λ r, length r ≤ length (headers self)) (rows self) →
  print_table self s
  = Returns (String.concat nl
      ([title self; str_mul "-" (String.length (title self)) +:+ nl;
        description self +:+ nl;
        String.concat ""
          (zip_with fmt_left (column_widths (headers self) (rows self)) (headers self));
        String.concat ""
          ((λ w, str_mul "-" w) <$> column_widths (headers self) (rows self))]
       ++ ((λ r, String.concat ""
              ((λ wv, fmt_left wv.1 (str wv.2))
                 <$> zip (column_widths (headers self) (rows self)) r))
             <$> rows self)
       ++ [nl])) s.
Proof.
  intros Hrows Hfit. unfold print_table.
  rewrite bool_decide_eq_false_2 by (by destruct (rows self)).
  rewrite bind_unfold, (for_fold_collect _ String.length []). simpl.
  rewrite bind_unfold, measure_rows by (by rewrite length_fmap).
  rewrite bind_unfold, add_some_more_space, measured_widths.
  rewrite bind_unfold, for_map_zip by (by rewrite length_column_widths).
  rewrite bind_unfold, for_fold_collect. simpl. done.
Qed.

Lemma concat_two_nonempty (sep a b : string) (l : list string) :
  sep ≠ "" → String.concat sep (a :: b :: l) ≠ "".
Proof.
  intros Hsep Hempty.
  change (a +:+ sep +:+ String.concat sep (b :: l) = "") in Hempty.
  apply (f_equal String.length) in Hempty.
  rewrite !length_append in Hempty. destruct sep; [done|]. simpl in Hempty. lia.
Qed.

(** X12.  [print_table] never raises on a check of the engine, populated
    from whatever catalog and databases and even when its [populate] raised
    midway; and it returns the empty string exactly when the check holds no
    row. *)
Theorem print_table_of_check_returns {St} env repo dbs name check (s : St) :
  CheckerExporter_checks !! name = Some check →
  let populated := final_state (call_populate env repo dbs check) in
  ∃ out, print_table populated s = Returns out s
         ∧ (out = "" ↔ get_table populated = []).
Proof.
  intros Hcheck populated.
  destruct (checks_rows_fit_headers env repo dbs name check Hcheck) as [_ Hfit].
  fold populated in Hfit. unfold get_table.
  destruct (rows populated) as [|r rs] eqn:Hrows.
  - exists "". split; [|done]. unfold print_table. by rewrite Hrows.
  - eexists. split.
    + apply print_table_block; [by rewrite Hrows|]. by rewrite Hrows.
    + split; [|done]. intros Hempty. by apply concat_two_nonempty in Hempty.
Qed.

Lemma print_table_of_check_returns_witness :
  ∃ out,
    print_table
      (final_state (call_populate ex_env ex_repo ex_dbs MissingDrawingTable_init)) tt
    = Returns out tt
    ∧ (out = "" ↔
       get_table
         (final_state (call_populate ex_env ex_repo ex_dbs MissingDrawingTable_init))
       = []).
Proof.
  apply (print_table_of_check_returns ex_env ex_repo ex_dbs "missingdrawing"
           MissingDrawingTable_init tt).
  reflexivity.
Defined.

Section too_long.
Context {St : Type}.
Implicit Types s : St.

(** The loop over the cells of a row with more cells than there are widths
    runs out of widths. *)
Lemma measure_row_too_long (r : row) (width : list nat) s :
  length width < length r →
  for_fold (seq 0 (length r)) width (λ i width,
    cell ← list_get r i;
    w ← list_get width i;
    list_set width i (String.length (str cell) `max` w)) s
  = Raises IndexError s.
Proof.
  intros Hlong.
  replace (length r) with (length width + S (length r - S (length width))) at 1 by lia.
  rewrite seq_app, for_fold_app, bind_unfold.
  rewrite (for_fold_ext _ _ (λ i width,
    w ← list_get width i;
    list_set width i (match r !! i with
                      | Some cell => String.length (str cell) `max` w
                      | None => w
                      end))).
  - rewrite index_loop by done. simpl. rewrite !bind_unfold. unfold list_get.
    destruct (lookup_lt_is_Some_2 r (length width)) as [cell ->]; [lia|]. simpl.
    by rewrite lookup_ge_None_2 by (by rewrite length_imap).
  - intros i width' s' [_ Hi]%elem_of_seq. rewrite bind_unfold. unfold list_get at 1.
    destruct (lookup_lt_is_Some_2 r i) as [cell ->]; [lia|]. done.
Qed.

Lemma measure_rows_too_long (rows : list row) (width : list nat) s :
  Exists (λ r, length width < length r) rows →
  for_fold rows width (λ row width,
    for_fold (seq 0 (length row)) width (λ i width,
      cell ← list_get row i;
      w ← list_get width i;
      list_set width i (String.length (str cell) `max` w))) s
  = Raises IndexError s.
Proof.
  revert width. induction rows as [|r rows IH]; intros width Hlong.
  { by apply Exists_nil in Hlong. }
  simpl. rewrite bind_unfold.
  destruct (decide (length width < length r)) as [Hr|Hr].
  - by rewrite measure_row_too_long.
  - rewrite measure_row by lia. apply IH.
    apply Exists_cons in Hlong as [?|Hlong]; [done|].
    eapply Exists_impl; [done|]. intros r'. by rewrite length_widen.
Qed.
End too_long.

(** X13.  A table one of whose rows has more cells than the table has
    headers cannot be rendered: [print_table] raises [IndexError] while it
    measures the columns, and no part of the block is returned. *)
Theorem print_table_raises_on_long_row {St} (self : table) (s : St) :
  Exists (λ r, length (headers self) < length r) (rows self) →
  print_table self s = Raises IndexError s.
Proof.
  intros Hlong. unfold print_table.
  rewrite bool_decide_eq_false_2.
  2: { destruct (rows self); [by apply Exists_nil in Hlong|done]. }
  rewrite bind_unfold, (for_fold_collect _ String.length []). simpl.
  rewrite bind_unfold, measure_rows_too_long; [done|].
  eapply Exists_impl; [done|]. intros r. by rewrite length_fmap.
Qed.

Lemma print_table_raises_on_long_row_witness :
  print_table {| klass := ErrorTable; title := "t"; description := "d";
                 rows := [[PStr "a"]; [PStr "a"; PStr "b"]]; headers := ["h"] |} tt
  = Raises IndexError tt.
Proof.
  apply (print_table_raises_on_long_row
           {| klass := ErrorTable; title := "t"; description := "d";
              rows := [[PStr "a"]; [PStr "a"; PStr "b"]]; headers := ["h"] |} tt).
  apply Exists_cons_tl, Exists_cons_hd. simpl. lia.
Defined.

Lemma sum_list_take_le (n : nat) (l : list nat) : sum_list (take n l) ≤ sum_list l.
Proof.
  revert n. induction l as [|x l IH]; intros [|n]; simpl; try lia.
  specialize (IH n). lia.
Qed.

Lemma separator_lengths (width : list nat) :
  String.length <$> ((λ w, str_mul "-" w) <$> width) = width.
Proof.
  induction width as [|w width IH]; [done|].
  rewrite !fmap_cons, IH, length_str_mul. simpl. f_equal. lia.
Qed.

(** X14.  The block that [print_table] returns for a table with rows, none
    longer than the header list, is aligned: the underline is as long as the
    title, the separator line is as long as the header line, no data line
    is longer than the header line, and the line of a row with as many cells
    as there are headers is exactly as long. *)
Theorem print_table_lines_align {St} (self : table) (s : St) :
  rows self ≠ [] →
  Forall (λ r, length r ≤ length (headers self)) (rows self) →
  ∃ underline header separator lines,
    print_table self s
    = Returns (String.concat nl
        ([title self; underline +:+ nl; description self +:+ nl; header; separator]
         ++ lines ++ [nl])) s
    ∧ String.length underline = String.length (title self)
    ∧ String.length separator = String.length header
    ∧ Forall2 (λ r line,
        String.length line ≤ String.length header
        ∧ (length r = length (headers self) →
           String.length line = String.length header))
        (rows self) lines.
Proof.
  intros Hrows Hfit. do 4 eexists. split; [by apply print_table_block|].
  assert (String.length (String.concat ""
            (zip_with fmt_left (column_widths (headers self) (rows self))
               (headers self)))
          = sum_list (column_widths (headers self) (rows self))) as Hheader.
  { by rewrite length_concat_cells, header_cells_lengths. }
  split_and!.
  - rewrite length_str_mul. simpl. lia.
  - by rewrite Hheader, length_concat_cells, separator_lengths.
  - apply Forall2_fmap_r, Forall_Forall2_diag, Forall_forall. intros r Hr.
    assert (length r ≤ length (headers self)) as Hlen
      by (by apply (proj1 (Forall_forall _ _) Hfit)).
    unfold compose. cbv beta.
    rewrite Hheader, length_concat_cells, row_cells_lengths by done. split.
    + apply sum_list_take_le.
    + intros Heq. by rewrite take_ge by (rewrite length_column_widths; lia).
Qed.

Lemma print_table_lines_align_witness :
  ∃ underline header separator lines,
    print_table ex_table tt
    = Returns (String.concat nl
        ([title ex_table; underline +:+ nl; description ex_table +:+ nl;
          header; separator]
         ++ lines ++ [nl])) tt
    ∧ String.length underline = String.length (title ex_table)
    ∧ String.length separator = String.length header
    ∧ Forall2 (λ r line,
        String.length line ≤ String.length header
        ∧ (length r = length (headers ex_table) →
           String.length line = String.length header))
        (rows ex_table) lines.
Proof.
  apply (print_table_lines_align ex_table tt).
  - discriminate.
  - repeat constructor.
Defined.

(** ** The function local to [UnknownClassTable.__init__] *)

Lemma class_ids_of_collection (coll : Collection) (classes : list BOLTSClass) :
  (λ occ : Collection * BOLTSClass, cl_id occ.2) <$> (classes ≫= λ cl, [(coll, cl)])
  = cl_id <$> classes.
Proof.
  induction classes as [|cl classes IH]; [done|].
  by rewrite bind_cons, fmap_app, IH.
Qed.

(** Its first loops gather the class ids of the catalog. *)
Lemma collect_class_ids {St} (repo : Repository) (s : St) :
  for_fold (collections repo) [] (λ coll ids,
    for_fold (classes_by_ids coll) ids (λ cl ids, mret (ids ++ [cl_id cl]))) s
  = Returns (class_ids repo) s.
Proof.
  unfold class_ids, class_occurrences.
  cut (∀ ids0,
    for_fold (collections repo) ids0 (λ coll ids,
      for_fold (classes_by_ids coll) ids (λ cl ids, mret (ids ++ [cl_id cl]))) s
    = Returns (ids0 ++ ((λ occ : Collection * BOLTSClass, cl_id occ.2) <$>
        (collections repo ≫= λ coll, classes_by_ids coll ≫= λ cl, [(coll, cl)]))) s).
  { intros Hgen. by rewrite Hgen. }
  induction (collections repo) as [|coll colls IH]; intros ids0.
  { simpl. by rewrite app_nil_r. }
  simpl. rewrite bind_unfold, (for_fold_collect _ cl_id), IH.
  by rewrite fmap_app, class_ids_of_collection, app_assoc.
Qed.

(** X15.  The function that [UnknownClassTable.__init__] defines and never
    calls would, if called as [populate], return for every catalog and
    database set, and append the row (class id, backend) for every class id
    that a base of a backend names and no class of the catalog bears, and
    no other row. *)
Theorem UnknownClass_local_populate_reports_unknown_ids repo dbs rows0 :
  UnknownClassTable_init_populate repo dbs rows0
  = Returns tt (rows0 ++ UnknownClass_rows repo dbs)
  ∧ ∀ r, r ∈ UnknownClass_rows repo dbs ↔
      ∃ db database id base cl_id,
        dbs !! db = Some database ∧ getbase database !! id = Some base
        ∧ cl_id ∈ classids base ∧ (cl_id ∉ class_ids repo)
        ∧ r = [PStr cl_id; PStr db].
Proof.
  split.
  - unfold UnknownClassTable_init_populate, UnknownClass_rows.
    rewrite bind_unfold, collect_class_ids.
    rewrite (for_each_keys dbs (λ db database, for_each _ _)).
    apply for_each_appends. intros [db database] rows1 _. simpl.
    apply for_each_appends. intros base rows2 _.
    apply for_each_appends. intros cl_id rows3 _.
    destruct (bool_decide (cl_id ∈ class_ids repo)); simpl; [|done].
    by rewrite app_nil_r.
  - intros r. unfold UnknownClass_rows. rewrite list_elem_of_bind. split.
    + intros ([db database] & Hr & Hdb%elem_of_map_to_list). simpl in Hr.
      apply list_elem_of_bind in Hr as (base & Hr & Hbase).
      apply list_elem_of_fmap in Hbase as ([id base'] & -> & Hbase%elem_of_map_to_list).
      apply list_elem_of_bind in Hr as (cl_id & Hr & Hcl). simpl in *.
      destruct (bool_decide (cl_id ∈ class_ids repo)) eqn:Hknown;
        [by apply elem_of_nil in Hr|].
      apply bool_decide_eq_false in Hknown. apply list_elem_of_singleton in Hr.
      by exists db, database, id, base', cl_id.
    + intros (db & database & id & base & cl_id & Hdb & Hbase & Hcl & Hunknown & ->).
      exists (db, database). split; [|by apply elem_of_map_to_list]. simpl.
      apply list_elem_of_bind. exists base. split.
      * apply list_elem_of_bind. exists cl_id. split; [|done].
        rewrite bool_decide_eq_false_2 by done. by left.
      * apply list_elem_of_fmap. exists (id, base). split; [done|].
        by apply elem_of_map_to_list.
Qed.
